(** * Mixture models: marginalised likelihood and membership probabilities

    A shallow embedding of the numerical core of [post.ipynb]: the prior
    [lnprior], the two per-point log-likelihoods [lnlike_fg] and [lnlike_bg],
    the log-probability [lnprob] handed to the ensemble sampler, and the loop
    that averages the stored blobs into [post_prob].

    Number model.  numpy's float64 values are idealised as real numbers:
    every finite float is read as the real it denotes and arithmetic is exact.
    The one infinite value the notebook produces on purpose, [-np.inf], is a
    constructor of [ereal].  Where numpy would leave the finite reals
    (logarithm of a non-positive number, division by zero: a RuntimeWarning and
    an [inf] or [nan] by default, a [FloatingPointError] under
    [np.seterr(all="raise")]) the embedding stops with [FloatingPointError].
    Python exceptions ([ValueError] for a failed unpacking or for shapes that
    do not broadcast, [IndexError] for an index out of range) are results of
    the same error monad. *)

From Stdlib Require Import Reals Lra List Bool Arith Lia.
From Stdlib Require Import Sorted Permutation.
Import ListNotations.
Open Scope R_scope.

(** ** The error monad *)

Inductive exn : Type :=
| ValueError
| IndexError
| FloatingPointError.

Inductive res (A : Type) : Type :=
| Ok (a : A)
| Raise (e : exn).

Arguments Ok {A} a.
Arguments Raise {A} e.

Definition bind {A B : Type} (c : res A) (k : A -> res B) : res B :=
  match c with
  | Ok a => k a
  | Raise e => Raise e
  end.

Notation "x <- c ;; k" := (bind c (fun x => k))
  (at level 61, c at next level, right associativity).
Notation "' pat <- c ;; k" := (bind c (fun v => match v with pat => k end))
  (at level 61, pat pattern, c at next level, right associativity).

Fixpoint mapM {A B : Type} (f : A -> res B) (l : list A) : res (list B) :=
  match l with
  | [] => Ok []
  | a :: l' => b <- f a ;; bs <- mapM f l' ;; Ok (b :: bs)
  end.

Fixpoint foldM {A S : Type} (body : A -> S -> res S) (l : list A) (s : S)
  : res S :=
  match l with
  | [] => Ok s
  | a :: l' => s' <- body a s ;; foldM body l' s'
  end.

(** ** Extended reals: the values of a log-probability *)

Inductive ereal : Type :=
| Finite (r : R)
| NegInf.

Definition isfinite (v : ereal) : bool :=
  match v with
  | Finite _ => true
  | NegInf => false
  end.

Definition eplus (a b : ereal) : ereal :=
  match a, b with
  | Finite u, Finite v => Finite (u + v)
  | _, _ => NegInf
  end.

(** ** One-dimensional numpy arrays *)

Abbreviation array := (list R).

Definition Rltb (a b : R) : bool := if Rlt_dec a b then true else false.

Fixpoint map2 {A B C : Type} (f : A -> B -> C) (a : list A) (b : list B)
  : list C :=
  match a, b with
  | u :: a', v :: b' => f u v :: map2 f a' b'
  | _, _ => []
  end.

(** Binary ufunc on two arrays: equal shapes go element by element, a shape
    of [(1,)] is stretched, anything else does not broadcast. *)
Definition broadcast {C : Type} (f : R -> R -> C) (a b : array)
  : res (list C) :=
  if (length a =? length b)%nat then Ok (map2 f a b)
  else if (length a =? 1)%nat then Ok (map (f (hd 0 a)) b)
  else if (length b =? 1)%nat then Ok (map (fun u => f u (hd 0 b)) a)
  else Raise ValueError.

(** [c op a] and [a op c] for a scalar [c]. *)
Definition lscal (f : R -> R -> R) (c : R) (a : array) : array :=
  map (f c) a.
Definition rscal (f : R -> R -> R) (a : array) (c : R) : array :=
  map (fun u => f u c) a.

(** [a ** n] *)
Definition power (a : array) (n : nat) : array := map (fun u => u ^ n) a.

Definition zeros (n : nat) : array := repeat 0 n.
Definition zeros_like (a : array) : array := zeros (length a).
Definition ones_like (a : array) : array := repeat 1 (length a).

(** Scalar [np.log] and [/], guarded where the result is not a real. *)
Definition log (v : R) : res R :=
  if Rlt_dec 0 v then Ok (ln v) else Raise FloatingPointError.

Definition divide (u v : R) : res R :=
  if Req_dec_T v 0 then Raise FloatingPointError else Ok (u / v).

(** [np.logaddexp] on scalars, evaluated the way numpy does it: the larger
    argument is taken out so that the exponential never overflows. *)
Definition log1p (t : R) : R := ln (1 + t).

Definition logaddexp (a b : R) : R :=
  if Req_dec_T a b then a + ln 2
  else
    let tmp := a - b in
    if Rlt_dec 0 tmp then a + log1p (exp (- tmp))
    else b + log1p (exp tmp).

Definition np_add (a b : array) : res array := broadcast Rplus a b.
Definition np_subtract (a b : array) : res array := broadcast Rminus a b.
Definition np_divide (a b : array) : res array :=
  q <- broadcast divide a b ;; mapM (fun r => r) q.
Definition np_log (a : array) : res array := mapM log a.
Definition np_exp (a : array) : array := map exp a.
Definition np_logaddexp (a b : array) : res array := broadcast logaddexp a b.
Definition np_sum (a : array) : R := fold_right Rplus 0 a.

(** In-place [acc += v] and [acc /= c]: the result keeps the shape of [acc]. *)
Definition iadd (acc v : array) : res array :=
  if (length v =? length acc)%nat then Ok (map2 Rplus acc v)
  else if (length v =? 1)%nat then Ok (rscal Rplus acc (hd 0 v))
  else Raise ValueError.

Definition idivide (acc : array) (c : R) : res array :=
  mapM (fun u => divide u c) acc.

(** [l[i]] *)
Definition getitem {A : Type} (l : list A) (i : nat) : res A :=
  match nth_error l i with
  | Some a => Ok a
  | None => Raise IndexError
  end.

Definition range (n : nat) : list nat := seq 0 n.

(** [m, b, Q, M, lnV = p] *)
Definition unpack5 (p : array) : res (R * R * R * R * R) :=
  match p with
  | [a; b; c; d; e] => Ok (a, b, c, d, e)
  | _ => Raise ValueError
  end.

(** ** The probabilistic model *)

Definition bounds : list (R * R) :=
  [(0.1, 1.9); (-0.9, 0.9); (0, 1); (-2.4, 2.4); (-7.2, 5.2)].

Definition lnprior (p : array) : ereal :=
  if negb (forallb (fun '(v, b) => Rltb (fst b) v && Rltb v (snd b))
             (combine p bounds))
  then NegInf
  else Finite 0.

Section Model.

(** The data: [x] and [y] come out of the random generator, [yerr] is the
    constant noise scale [0.2 * np.ones_like(x)]. *)
Variables x y : array.

Definition yerr : array := lscal Rmult 0.2 (ones_like x).

Definition lnlike_fg (p : array) : res array :=
  '(m, b, _, M, lnV) <- unpack5 p ;;
  let model := rscal Rplus (lscal Rmult m x) b in
  d <- np_subtract model y ;;
  r <- np_divide d yerr ;;
  l <- np_log yerr ;;
  s <- np_add (power r 2) (lscal Rmult 2 l) ;;
  Ok (lscal Rmult (-0.5) s).

(** The local [var] of [lnlike_bg]. *)
Definition var (lnV : R) : array := lscal Rplus (exp lnV) (power yerr 2).

Definition lnlike_bg (p : array) : res array :=
  '(_, _, Q, M, lnV) <- unpack5 p ;;
  let var := var lnV in
  q <- np_divide (power (lscal Rminus M y) 2) var ;;
  l <- np_log var ;;
  s <- np_add q l ;;
  Ok (lscal Rmult (-0.5) s).

Definition lnprob (p : array) : res (ereal * array * array) :=
  '(m, b, Q, M, lnV) <- unpack5 p ;;
  let lp := lnprior p in
  if negb (isfinite lp) then Ok (NegInf, zeros_like y, zeros_like y)
  else
    ll_fg <- lnlike_fg p ;;
    lQ <- log Q ;;
    let arg1 := rscal Rplus ll_fg lQ in
    ll_bg <- lnlike_bg p ;;
    l1Q <- log (1.0 - Q) ;;
    let arg2 := rscal Rplus ll_bg l1Q in
    lae <- np_logaddexp arg1 arg2 ;;
    let ll := np_sum lae in
    Ok (eplus lp (Finite ll), arg1, arg2).

(** ** Mixture membership probabilities *)

(** A numpy array of three dimensions: its shape and its entries. *)
Record ndarray3 : Type := {
  shape : nat * nat * nat;
  item : nat -> nat -> nat -> R
}.

Definition shape0 (a : ndarray3) : nat := fst (fst (shape a)).
Definition shape1 (a : ndarray3) : nat := snd (fst (shape a)).

(** What the notebook reads of the sampler after the production run:
    [sampler.chain], of shape [(nwalkers, nsteps, ndim)], and
    [sampler.blobs], one list per step holding one blob per walker, each blob
    the pair of vectors [lnprob] returned with the log-probability. *)
Record EnsembleSampler : Type := {
  chain : ndarray3;
  blobs : list (list (array * array))
}.

(** [np.exp(ll_fg - np.logaddexp(ll_fg, ll_bg))] *)
Definition membership (ll_fg ll_bg : array) : res array :=
  lae <- np_logaddexp ll_fg ll_bg ;;
  d <- np_subtract ll_fg lae ;;
  Ok (np_exp d).

(** The body of the inner loop on the state [(post_prob, norm)]. *)
Definition post_prob_body (sampler : EnsembleSampler) (i j : nat)
  (st : array * R) : res (array * R) :=
  let '(post_prob, norm) := st in
  row <- getitem (blobs sampler) i ;;
  '(ll_fg, ll_bg) <- getitem row j ;;
  t <- membership ll_fg ll_bg ;;
  post_prob <- iadd post_prob t ;;
  Ok (post_prob, norm + 1).

Definition post_prob (sampler : EnsembleSampler) : res array :=
  let norm := 0.0 in
  let post_prob := zeros (length x) in
  '(post_prob, norm) <-
    foldM (fun i st =>
             foldM (fun j st => post_prob_body sampler i j st)
                   (range (shape0 (chain sampler))) st)
          (range (shape1 (chain sampler))) (post_prob, norm) ;;
  idivide post_prob norm.

End Model.

(** ** Vocabulary of the statements *)

(** [big_sum n f] is the sum of [f 0], ..., [f (n - 1)]. *)
Fixpoint big_sum (n : nat) (f : nat -> R) : R :=
  match n with
  | O => 0
  | S n' => big_sum n' f + f n'
  end.

(** Every component of [p] lies strictly between the two ends of its entry in
    [bounds], and there is one component per entry. *)
Definition strictly_inside (p : array) : Prop :=
  Forall2 (fun v b => fst b < v < snd b) p bounds.

(** Some component of [p] is not strictly between the ends of its bound. *)
Definition some_outside (p : array) : Prop :=
  exists i v lo hi,
    nth_error p i = Some v /\ nth_error bounds i = Some (lo, hi) /\
    ~ (lo < v < hi).

(** Some component of [p] sits exactly on an end of its bound. *)
Definition on_endpoint (p : array) : Prop :=
  exists i v lo hi,
    nth_error p i = Some v /\ nth_error bounds i = Some (lo, hi) /\
    (v = lo \/ v = hi).

(** The blobs the sampler stored have the shape the chain announces:
    [nsteps] rows of [nwalkers] pairs of vectors of length [K]. *)
Definition blobs_shaped (K nwalkers nsteps : nat)
  (bl : list (list (array * array))) : Prop :=
  length bl = nsteps /\
  Forall (fun row =>
            length row = nwalkers /\
            Forall (fun b => length (fst b) = K /\ length (snd b) = K) row)
         bl.

(** The membership term of one stored blob at observation [k]. *)
Definition sample_term (s : array * array) (k : nat) : R :=
  exp (nth k (fst s) 0 - logaddexp (nth k (fst s) 0) (nth k (snd s) 0)).

(** The same for the blob of walker [j] at step [i]. *)
Definition blob_term (bl : list (list (array * array))) (i j k : nat) : R :=
  sample_term (nth j (nth i bl []) ([], [])) k.

(** The arrays [lnlike_fg] and [lnlike_bg] evaluate to when every guard
    passes, as one expression each. *)
Definition fg_value (x y : array) (m b : R) : array :=
  lscal Rmult (-0.5)
    (map2 Rplus
       (power (map2 Rdiv (map2 Rminus (rscal Rplus (lscal Rmult m x) b) y)
                 (yerr x)) 2)
       (lscal Rmult 2 (map ln (yerr x)))).

Definition bg_value (x y : array) (M lnV : R) : array :=
  lscal Rmult (-0.5)
    (map2 Rplus
       (map2 Rdiv (power (lscal Rminus M y) 2) (var x lnV))
       (map ln (var x lnV))).

(** ** The rest of the notebook: synthetic data, the fit that ignores the
    outliers, and the first positions of the walkers *)

Definition true_frac : R := 0.8.
Definition true_params : array := [1.0; 0.0].
Definition true_outliers : array := [0.0; 1.0].

(** The part of [np.random] the notebook calls.  The generator is a state
    machine: a draw returns the numbers asked for and the state that
    follows. *)
Record RandomState : Type := {
  rng : Type;
  seed : nat -> rng;
  uniform : R -> R -> nat -> rng -> array * rng;
  randn : nat -> rng -> array * rng;
  rand : nat -> rng -> array * rng
}.

(** [np.sort]: the entries in ascending order (on real numbers that list
    does not depend on the sorting algorithm). *)
Fixpoint sorted_insert (v : R) (l : array) : array :=
  match l with
  | [] => [v]
  | u :: l' => if Rle_dec v u then v :: l else u :: sorted_insert v l'
  end.

Definition np_sort (a : array) : array := fold_right sorted_insert [] a.

Definition np_multiply (a b : array) : res array := broadcast Rmult a b.

Definition np_sqrt (a : array) : res array :=
  mapM (fun v => if Rle_dec 0 v then Ok (sqrt v) else Raise FloatingPointError)
       a.

(** [sum(mask)]: the number of [True] entries. *)
Definition count_true (m : list bool) : nat := length (filter (fun f => f) m).

(** [a[mask]] *)
Definition mask_get (a : array) (m : list bool) : res array :=
  if (length m =? length a)%nat
  then Ok (map fst (filter snd (combine a m)))
  else Raise IndexError.

(** [a[mask] = c] for a scalar [c] *)
Definition mask_fill (a : array) (m : list bool) (c : R) : res array :=
  if (length m =? length a)%nat
  then Ok (map2 (fun u (f : bool) => if f then c else u) a m)
  else Raise IndexError.

(** The entries of [v], in order, at the places where the mask is true. *)
Fixpoint scatter (a : array) (m : list bool) (v : array) : array :=
  match a, m with
  | u :: a', true :: m' =>
      match v with
      | w :: v' => w :: scatter a' m' v'
      | [] => u :: scatter a' m' []
      end
  | u :: a', false :: m' => u :: scatter a' m' v
  | _, _ => a
  end.

(** [a[mask] = v] for an array [v] *)
Definition mask_set (a : array) (m : list bool) (v : array) : res array :=
  if negb (length m =? length a)%nat then Raise IndexError
  else if (length v =? count_true m)%nat then Ok (scatter a m v)
  else if (length v =? 1)%nat
       then Ok (scatter a m (repeat (hd 0 v) (count_true m)))
  else Raise ValueError.

Record dataset : Type := {
  data_x : array;
  data_yerr : array;
  data_y : array;
  data_m_bkg : list bool
}.

(** The first code cell. *)
Definition make_data (G : RandomState) : res dataset :=
  let s := seed G 12 in
  let '(u, s) := uniform G (-2) 2 15 s in
  let x := np_sort u in
  let yerr := yerr x in
  a <- getitem true_params 0 ;;
  let ax := lscal Rmult a x in
  c <- getitem true_params 1 ;;
  let line := rscal Rplus ax c in
  let '(z, s) := randn G (length x) s in
  noise <- np_multiply yerr z ;;
  y <- np_add line noise ;;
  let '(r, s) := rand G (length x) s in
  let m_bkg := map (fun v => Rltb true_frac v) r in
  o <- getitem true_outliers 0 ;;
  y <- mask_fill y m_bkg o ;;
  cur <- mask_get y m_bkg ;;
  v <- getitem true_outliers 1 ;;
  sel <- mask_get yerr m_bkg ;;
  sd <- np_sqrt (lscal Rplus v (power sel 2)) ;;
  let '(z2, s) := randn G (count_true m_bkg) s in
  inc <- np_multiply sd z2 ;;
  new <- iadd cur inc ;;
  y <- mask_set y m_bkg new ;;
  Ok {| data_x := x; data_yerr := yerr; data_y := y; data_m_bkg := m_bkg |}.

(** [np.vander(x, 2)]: one row [(x_k ** 1, x_k ** 0)] per entry of [x]. *)
Definition vander2 (x : array) : list (R * R) :=
  map (fun v => (v ^ 1, v ^ 0)) x.

(** [A / c[:, None]] for a matrix of two columns: row [k] is divided by
    [c[k]]; a single row or a single divisor is stretched. *)
Definition divide_rows (A : list (R * R)) (c : array) : res (list (R * R)) :=
  pairs <- (if (length A =? length c)%nat then Ok (combine A c)
            else if (length c =? 1)%nat
                 then Ok (map (fun row => (row, hd 0 c)) A)
            else if (length A =? 1)%nat
                 then Ok (map (fun d => (hd (0, 0) A, d)) c)
            else Raise ValueError) ;;
  mapM (fun '(row, d) =>
          q1 <- divide (fst row) d ;; q2 <- divide (snd row) d ;; Ok (q1, q2))
       pairs.

(** [np.dot(A.T, B)] and [np.dot(A.T, v)] for matrices of two columns. *)
Definition dot_T (A B : list (R * R)) : res ((R * R) * (R * R)) :=
  if (length A =? length B)%nat
  then Ok ((np_sum (map2 Rmult (map fst A) (map fst B)),
            np_sum (map2 Rmult (map fst A) (map snd B))),
           (np_sum (map2 Rmult (map snd A) (map fst B)),
            np_sum (map2 Rmult (map snd A) (map snd B))))
  else Raise ValueError.

Definition dot_T_vec (A : list (R * R)) (v : array) : res (R * R) :=
  if (length A =? length v)%nat
  then Ok (np_sum (map2 Rmult (map fst A) v),
           np_sum (map2 Rmult (map snd A) v))
  else Raise ValueError.

(** [np.linalg.solve] on a system of two equations: the unique solution, or
    [LinAlgError], which is a [ValueError], when the matrix is singular. *)
Definition solve2 (M : (R * R) * (R * R)) (v : R * R) : res (R * R) :=
  let '((m11, m12), (m21, m22)) := M in
  let '(v1, v2) := v in
  let det := m11 * m22 - m12 * m21 in
  if Req_dec_T det 0 then Raise ValueError
  else Ok ((v1 * m22 - m12 * v2) / det, (m11 * v2 - m21 * v1) / det).

(** The maximum-likelihood line that ignores the outliers. *)
Definition fit (x y : array) : res (R * R) :=
  let A := vander2 x in
  W <- divide_rows A (power (yerr x) 2) ;;
  M <- dot_T A W ;;
  w <- np_divide y (power (yerr x) 2) ;;
  v <- dot_T_vec A w ;;
  solve2 M v.

Definition ndim : nat := 5.
Definition nwalkers : nat := 32.

(** [p0 = np.array([1.0, 0.0, 0.7, 0.0, np.log(2.0)])] *)
Definition initial_guess : res array :=
  l <- log 2.0 ;; Ok [1.0; 0.0; 0.7; 0.0; l].

(** [[p0 + 1e-5 * np.random.randn(ndim) for k in ks]] *)
Fixpoint draw_walkers (G : RandomState) (p0 : array) (ks : list nat)
  (s : rng G) : res (list array * rng G) :=
  match ks with
  | [] => Ok ([], s)
  | _ :: ks' =>
      let '(z, s) := randn G ndim s in
      w <- np_add p0 (lscal Rmult 1e-5 z) ;;
      '(ws, s) <- draw_walkers G p0 ks' s ;;
      Ok (w :: ws, s)
  end.

Definition initial_walkers (G : RandomState) (s : rng G)
  : res (list array * rng G) :=
  p0 <- initial_guess ;;
  draw_walkers G p0 (range nwalkers) s.

(** ** Vocabulary of the further statements *)

(** What a draw promises: as many numbers as asked for, inside the range of
    the distribution where it has one. *)
Record rng_contract (G : RandomState) : Prop := {
  uniform_length : forall lo hi n s, length (fst (uniform G lo hi n s)) = n;
  uniform_range : forall lo hi n s,
    lo < hi -> Forall (fun u => lo <= u < hi) (fst (uniform G lo hi n s));
  randn_length : forall n s, length (fst (randn G n s)) = n;
  rand_length : forall n s, length (fst (rand G n s)) = n
}.

(** Every blob with its two vectors exchanged. *)
Definition swap_blobs (bl : list (list (array * array)))
  : list (list (array * array)) :=
  map (map (fun b => (snd b, fst b))) bl.

(** [sampler.chain[j, i]]: the position of walker [j] at step [i]. *)
Definition chain_at (c : ndarray3) (j i : nat) : array :=
  map (item c j i) (range (snd (shape c))).

(** A Gaussian density of variance [v] at distance [r] from its mean,
    without the factor [1 / sqrt (2 * PI)], which the notebook drops from both
    likelihoods. *)
Definition gauss (r v : R) : R := exp (- (1 / 2) * (r ^ 2 / v + ln v)).

(** The posterior probability that point [k] is in the foreground, given the
    parameters: [Q p_fg / (Q p_fg + (1 - Q) p_bg)]. *)
Definition membership_prob (x y : array) (m b Q M lnV : R) (k : nat) : R :=
  let s2 := nth k (yerr x) 0 ^ 2 in
  let p_fg := gauss (m * nth k x 0 + b - nth k y 0) s2 in
  let p_bg := gauss (M - nth k y 0) (exp lnV + s2) in
  Q * p_fg / (Q * p_fg + (1 - Q) * p_bg).

(** The weighted sum of squared residuals of the line [m * x + b]. *)
Definition chi2 (x y : array) (m b : R) : R :=
  big_sum (length x)
    (fun k => ((m * nth k x 0 + b - nth k y 0) / nth k (yerr x) 0) ^ 2).

(** A generator for worked instances: it counts its draws, and every second
    number of [rand] is above [true_frac]. *)
Definition toy_rng : RandomState :=
  {| rng := nat;
     seed := fun _ => 0%nat;
     uniform := fun lo _ n s => (repeat lo n, S s);
     randn := fun n s => (repeat 1 n, S s);
     rand := fun n s =>
       (map (fun i => if Nat.even i then 0 else 0.9) (seq 0 n), S s) |}.

(** ** A small data set for worked instances *)

Definition x0 : array := [0; 1].
Definition y0 : array := [0.1; 2].
Definition theta0 : array := [1; 0; 0.5; 0; 0].

(** One production step of two walkers. *)
Definition sampler0 : EnsembleSampler :=
  {| chain := {| shape := (2%nat, 1%nat, 5%nat); item := fun _ _ _ => 0 |};
     blobs := [[([-1; 0], [0; -1]); ([0; 0], [0; 0])]] |}.

(** A chain of one walker and one step that sits at [theta0] and stores the
    blob lnprob returns there. *)
Definition sampler1 : EnsembleSampler :=
  {| chain := {| shape := (1%nat, 1%nat, ndim);
                 item := fun _ _ d => nth d theta0 0 |};
     blobs := [[(rscal Rplus (fg_value x0 y0 1 0) (ln 0.5),
                 rscal Rplus (bg_value x0 y0 0 0) (ln (1 - 0.5)))]] |}.

(** * Proofs *)

(** ** Lists and arrays *)

Lemma map2_length {A B C : Type} (f : A -> B -> C) (a : list A) (b : list B) :
  length a = length b -> length (map2 f a b) = length a.
Proof.
  revert b; induction a as [|u a IH]; intros [|v b] H; simpl in *;
    try discriminate; auto.
Qed.

Lemma map2_length_min {A B C : Type} (f : A -> B -> C) (a : list A)
  (b : list B) :
  length (map2 f a b) = Nat.min (length a) (length b).
Proof.
  revert b; induction a as [|u a IH]; intros [|v b]; simpl; auto.
Qed.

Lemma nth_map_lt {A B : Type} (f : A -> B) (l : list A) (k : nat) (d : A)
  (d' : B) :
  (k < length l)%nat -> nth k (map f l) d' = f (nth k l d).
Proof.
  revert k; induction l as [|a l IH]; intros [|k] H; simpl in *;
    try lia; auto.
  apply IH; lia.
Qed.

Lemma nth_map2_lt {A B C : Type} (f : A -> B -> C) (a : list A) (b : list B)
  (k : nat) (da : A) (db : B) (d : C) :
  (k < length a)%nat -> (k < length b)%nat ->
  nth k (map2 f a b) d = f (nth k a da) (nth k b db).
Proof.
  revert b k; induction a as [|u a IH]; intros [|v b] [|k] Ha Hb;
    simpl in *; try lia; auto.
  apply IH; lia.
Qed.

Lemma nth_repeat_lt {A : Type} (c d : A) (n k : nat) :
  (k < n)%nat -> nth k (repeat c n) d = c.
Proof.
  revert k; induction n as [|n IH]; intros [|k] H; simpl; try lia; auto.
  apply IH; lia.
Qed.

Lemma broadcast_same {C : Type} (f : R -> R -> C) (a b : array) :
  length a = length b -> broadcast f a b = Ok (map2 f a b).
Proof.
  intros H; unfold broadcast.
  rewrite (proj2 (Nat.eqb_eq _ _) H); reflexivity.
Qed.

Lemma mapM_ok {A B : Type} (f : A -> res B) (g : A -> B) (l : list A) :
  Forall (fun a => f a = Ok (g a)) l -> mapM f l = Ok (map g l).
Proof.
  induction 1 as [|a l Ha _ IH]; simpl; auto.
  rewrite Ha; simpl; rewrite IH; reflexivity.
Qed.

Lemma log_pos (v : R) : 0 < v -> log v = Ok (ln v).
Proof. intros H; unfold log; destruct (Rlt_dec 0 v); [reflexivity | lra]. Qed.

Lemma divide_nonzero (u v : R) : v <> 0 -> divide u v = Ok (u / v).
Proof.
  intros H; unfold divide; destruct (Req_dec_T v 0); [contradiction | auto].
Qed.

Lemma np_log_pos (a : array) :
  Forall (fun v => 0 < v) a -> np_log a = Ok (map ln a).
Proof.
  intros H; apply mapM_ok.
  eapply Forall_impl; [|exact H]; intros v Hv; apply log_pos; exact Hv.
Qed.

Lemma mapM_map2_divide (a b : array) :
  length a = length b -> Forall (fun v => v <> 0) b ->
  mapM (fun r => r) (map2 divide a b) = Ok (map2 Rdiv a b).
Proof.
  revert b; induction a as [|u a IH]; intros [|v b] Hl Hb; simpl in *;
    try discriminate; auto.
  inversion Hb; subst.
  rewrite divide_nonzero by assumption; simpl.
  rewrite IH by (auto; lia); reflexivity.
Qed.

Lemma np_divide_nonzero (a b : array) :
  length a = length b -> Forall (fun v => v <> 0) b ->
  np_divide a b = Ok (map2 Rdiv a b).
Proof.
  intros Hl Hb; unfold np_divide.
  rewrite broadcast_same by assumption; simpl.
  apply mapM_map2_divide; assumption.
Qed.

Lemma big_sum_shift (n : nat) (f : nat -> R) :
  big_sum (S n) f = f O + big_sum n (fun k => f (S k)).
Proof.
  induction n as [|n IH]; simpl in *; [lra|].
  rewrite IH; lra.
Qed.

Lemma big_sum_ext (n : nat) (f g : nat -> R) :
  (forall k, (k < n)%nat -> f k = g k) -> big_sum n f = big_sum n g.
Proof.
  induction n as [|n IH]; intros H; simpl; auto.
  rewrite IH by (intros; apply H; lia).
  rewrite H by lia; reflexivity.
Qed.

Lemma np_sum_big_sum (a : array) :
  np_sum a = big_sum (length a) (fun k => nth k a 0).
Proof.
  induction a as [|u a IH]; [reflexivity|].
  change (length (u :: a)) with (S (length a)).
  rewrite big_sum_shift; simpl; rewrite <- IH; reflexivity.
Qed.

(** ** The stable log-sum-exp *)

Lemma ln_exp_factor (a t : R) : 0 < t -> a + ln t = ln (exp a * t).
Proof.
  intros Ht; rewrite ln_mult by (auto using exp_pos); rewrite ln_exp; lra.
Qed.

Lemma logaddexp_direct (a b : R) : logaddexp a b = ln (exp a + exp b).
Proof.
  unfold logaddexp, log1p.
  destruct (Req_dec_T a b) as [->|Hne].
  - rewrite ln_exp_factor by lra; f_equal; lra.
  - destruct (Rlt_dec 0 (a - b)) as [Hlt|Hge].
    + pose proof (exp_pos (- (a - b))).
      rewrite ln_exp_factor by lra; f_equal.
      rewrite Rmult_plus_distr_l, <- exp_plus.
      replace (a + - (a - b)) with b by lra; lra.
    + pose proof (exp_pos (a - b)).
      rewrite ln_exp_factor by lra; f_equal.
      rewrite Rmult_plus_distr_l, <- exp_plus.
      replace (b + (a - b)) with a by lra; lra.
Qed.

Lemma exp_plus_ln (l w : R) : 0 < w -> exp (l + ln w) = w * exp l.
Proof. intros Hw; rewrite exp_plus, exp_ln by exact Hw; lra. Qed.

(** A blob entry in linear space: the share of the first of two weights. *)
Lemma exp_minus_logaddexp (a b : R) :
  exp (a - logaddexp a b) = exp a / (exp a + exp b).
Proof.
  pose proof (exp_pos a); pose proof (exp_pos b).
  rewrite logaddexp_direct; unfold Rminus.
  rewrite exp_plus, exp_Ropp, exp_ln by lra; reflexivity.
Qed.

Lemma share_unit_interval (u v : R) : 0 < u -> 0 < v -> 0 <= u / (u + v) <= 1.
Proof.
  intros Hu Hv.
  assert (Hs : 0 < u + v) by lra.
  split.
  - apply Rlt_le, Rdiv_lt_0_compat; assumption.
  - apply (Rmult_le_reg_r (u + v)); [exact Hs|].
    unfold Rdiv; rewrite Rmult_assoc, Rinv_l by lra; lra.
Qed.

(** ** The prior *)

Lemma Rltb_true (a b : R) : Rltb a b = true <-> a < b.
Proof.
  unfold Rltb; destruct (Rlt_dec a b); split; intros; auto; discriminate.
Qed.

Lemma inside_bool (v lo hi : R) :
  Rltb lo v && Rltb v hi = true <-> lo < v < hi.
Proof. rewrite andb_true_iff, !Rltb_true; tauto. Qed.

Lemma forallb_inside (p : array) (bs : list (R * R)) :
  Forall2 (fun v b => fst b < v < snd b) p bs ->
  forallb (fun '(v, b) => Rltb (fst b) v && Rltb v (snd b)) (combine p bs)
  = true.
Proof.
  induction 1 as [|v b p bs Hv _ IH]; simpl; auto.
  rewrite IH, andb_true_r; apply inside_bool; exact Hv.
Qed.

Lemma forallb_outside (p : array) (bs : list (R * R)) (i : nat)
  (v lo hi : R) :
  nth_error p i = Some v -> nth_error bs i = Some (lo, hi) ->
  ~ (lo < v < hi) ->
  forallb (fun '(v, b) => Rltb (fst b) v && Rltb v (snd b)) (combine p bs)
  = false.
Proof.
  revert bs i; induction p as [|u p IH]; intros [|b bs] [|i] Hp Hb Hout;
    simpl in *; try discriminate.
  - inversion Hp; inversion Hb; subst; simpl.
    apply andb_false_iff; left.
    apply not_true_is_false; intros Ht; apply inside_bool in Ht; tauto.
  - rewrite (IH _ _ Hp Hb Hout); apply andb_false_r.
Qed.

Lemma lnprior_inside (p : array) : strictly_inside p -> lnprior p = Finite 0.
Proof.
  intros H; unfold lnprior; rewrite (forallb_inside _ _ H); reflexivity.
Qed.

Lemma lnprior_outside (p : array) : some_outside p -> lnprior p = NegInf.
Proof.
  intros [i [v [lo [hi [Hp [Hb Hout]]]]]]; unfold lnprior.
  rewrite (forallb_outside _ _ _ _ _ _ Hp Hb Hout); reflexivity.
Qed.

(** What acceptance means for a vector of five components. *)
Lemma lnprior_accepts (m b Q M lnV : R) :
  lnprior [m; b; Q; M; lnV] = Finite 0 <-> strictly_inside [m; b; Q; M; lnV].
Proof.
  split; [|apply lnprior_inside].
  unfold lnprior, strictly_inside, bounds; simpl.
  destruct (Rltb 0.1 m && Rltb m 1.9) eqn:H1;
    destruct (Rltb (-0.9) b && Rltb b 0.9) eqn:H2;
    destruct (Rltb 0 Q && Rltb Q 1) eqn:H3;
    destruct (Rltb (-2.4) M && Rltb M 2.4) eqn:H4;
    destruct (Rltb (-7.2) lnV && Rltb lnV 5.2) eqn:H5;
    simpl; try discriminate; intros _.
  apply inside_bool in H1, H2, H3, H4, H5.
  repeat constructor; simpl; tauto.
Qed.

Lemma inside_Q (m b Q M lnV : R) :
  strictly_inside [m; b; Q; M; lnV] -> 0 < Q < 1.
Proof.
  intros H; inversion H as [|? ? ? ? _ H1]; subst.
  inversion H1 as [|? ? ? ? _ H2]; subst.
  inversion H2 as [|? ? ? ? HQ _]; subst.
  exact HQ.
Qed.

(** Side conditions on lengths and indices. *)
Ltac list_len :=
  unfold lscal, rscal, power, np_exp, zeros_like, zeros;
  rewrite ?length_map, ?map2_length_min, ?length_map, ?map2_length_min,
    ?length_map, ?map2_length_min, ?length_map, ?repeat_length;
  lia.

(** ** The membership term *)

Lemma membership_same (a b : array) :
  length a = length b ->
  membership a b = Ok (np_exp (map2 Rminus a (map2 logaddexp a b))).
Proof.
  intros H; unfold membership, np_logaddexp, np_subtract.
  rewrite broadcast_same by exact H; simpl.
  rewrite broadcast_same by (rewrite map2_length; auto); reflexivity.
Qed.

Lemma membership_value_length (a b : array) :
  length a = length b ->
  length (np_exp (map2 Rminus a (map2 logaddexp a b))) = length a.
Proof. intros H; list_len. Qed.

Lemma membership_value_nth (a b : array) (k : nat) :
  length a = length b -> (k < length a)%nat ->
  nth k (np_exp (map2 Rminus a (map2 logaddexp a b))) 0
  = exp (nth k a 0 - logaddexp (nth k a 0) (nth k b 0)).
Proof.
  intros H Hk; unfold np_exp.
  rewrite (nth_map_lt _ _ _ 0) by list_len.
  rewrite (nth_map2_lt _ _ _ _ 0 0) by list_len.
  rewrite (nth_map2_lt _ _ _ _ 0 0) by list_len.
  reflexivity.
Qed.

(** ** The two likelihoods *)

Section Evaluator.

(** [y] is built from [x] entry by entry, so the two have the same shape:
    one entry per observation. *)
Variables x y : array.
Hypothesis Hxy : length y = length x.

Lemma yerr_length : length (yerr x) = length x.
Proof.
  unfold yerr, lscal, ones_like; rewrite length_map, repeat_length; reflexivity.
Qed.

Lemma yerr_nth (k : nat) : (k < length x)%nat -> nth k (yerr x) 0 = 0.2.
Proof.
  intros H; unfold yerr, lscal, ones_like.
  rewrite (nth_map_lt _ _ _ 0) by (rewrite repeat_length; exact H).
  rewrite nth_repeat_lt by exact H; lra.
Qed.

Lemma yerr_pos : Forall (fun s => 0 < s) (yerr x).
Proof.
  unfold yerr, lscal, ones_like; apply Forall_forall; intros s Hs.
  apply in_map_iff in Hs; destruct Hs as [o [<- Ho]].
  apply repeat_spec in Ho; subst o; lra.
Qed.

Lemma var_length (lnV : R) : length (var x lnV) = length x.
Proof.
  unfold var, lscal, power; rewrite !length_map; apply yerr_length.
Qed.

Lemma var_nth (lnV : R) (k : nat) :
  (k < length x)%nat ->
  nth k (var x lnV) 0 = exp lnV + nth k (yerr x) 0 ^ 2.
Proof.
  intros H; unfold var, lscal, power.
  rewrite (nth_map_lt _ _ _ 0) by (rewrite length_map, yerr_length; exact H).
  rewrite (nth_map_lt _ _ _ 0) by (rewrite yerr_length; exact H).
  reflexivity.
Qed.

Lemma var_pos (lnV : R) : Forall (fun v => 0 < v) (var x lnV).
Proof.
  unfold var, lscal, power; apply Forall_forall; intros v Hv.
  apply in_map_iff in Hv; destruct Hv as [q [<- Hq]].
  apply in_map_iff in Hq; destruct Hq as [s [<- _]].
  pose proof (exp_pos lnV); pose proof (pow2_ge_0 s); lra.
Qed.

Lemma pos_nonzero (a : array) :
  Forall (fun v => 0 < v) a -> Forall (fun v => v <> 0) a.
Proof. apply Forall_impl; intros v Hv; lra. Qed.

(** Side conditions that also involve the data arrays. *)
Ltac len :=
  unfold fg_value, bg_value, lscal, rscal, power, np_exp, zeros_like, zeros;
  rewrite ?length_map, ?map2_length_min, ?length_map, ?map2_length_min,
    ?length_map, ?map2_length_min, ?length_map, ?yerr_length, ?var_length,
    ?repeat_length;
  lia.

Ltac nth_map := rewrite (nth_map_lt _ _ _ 0) by len.
Ltac nth_map2 := rewrite (nth_map2_lt _ _ _ _ 0 0) by len.

Lemma lnlike_fg_eval (m b Q M lnV : R) :
  lnlike_fg x y [m; b; Q; M; lnV] = Ok (fg_value x y m b).
Proof.
  unfold lnlike_fg, np_subtract, np_add; simpl.
  rewrite broadcast_same by len; simpl.
  rewrite np_divide_nonzero by first [len | apply pos_nonzero, yerr_pos].
  simpl.
  rewrite np_log_pos by apply yerr_pos; simpl.
  rewrite broadcast_same by len; reflexivity.
Qed.

Lemma fg_value_length (m b : R) : length (fg_value x y m b) = length x.
Proof. len. Qed.

Lemma lnlike_bg_eval (m b Q M lnV : R) :
  lnlike_bg x y [m; b; Q; M; lnV] = Ok (bg_value x y M lnV).
Proof.
  unfold lnlike_bg, np_add; simpl.
  rewrite np_divide_nonzero by first [len | apply pos_nonzero, var_pos].
  simpl.
  rewrite np_log_pos by apply var_pos; simpl.
  rewrite broadcast_same by len; reflexivity.
Qed.

Lemma bg_value_length (M lnV : R) : length (bg_value x y M lnV) = length x.
Proof. len. Qed.

(** C7. For every parameter vector (m, b, Q, M, lnV), the foreground
    log-likelihood evaluator returns a vector with one entry per observation,
    and entry k is -1/2 * (((m * x_k + b - y_k) / sigma_k)^2 + 2 * log sigma_k),
    where sigma_k is entry k of yerr. *)
Theorem lnlike_fg_entries (m b Q M lnV : R) :
  exists v,
    lnlike_fg x y [m; b; Q; M; lnV] = Ok v /\
    length v = length x /\
    forall k, (k < length x)%nat ->
      nth k v 0 =
      - (1 / 2) * (((m * nth k x 0 + b - nth k y 0) / nth k (yerr x) 0) ^ 2
                   + 2 * ln (nth k (yerr x) 0)).
Proof.
  exists (fg_value x y m b); split; [apply lnlike_fg_eval|].
  split; [apply fg_value_length|].
  intros k Hk; unfold fg_value, lscal, rscal, power.
  repeat first [nth_map | nth_map2].
  lra.
Qed.

(** C8. For every parameter vector (m, b, Q, M, lnV), the background
    log-likelihood evaluator returns a vector with one entry per observation,
    and entry k is -1/2 * ((M - y_k)^2 / var_k + log var_k) with
    var_k = exp(lnV) + sigma_k^2. *)
Theorem lnlike_bg_entries (m b Q M lnV : R) :
  exists v,
    lnlike_bg x y [m; b; Q; M; lnV] = Ok v /\
    length v = length x /\
    forall k, (k < length x)%nat ->
      let var_k := exp lnV + nth k (yerr x) 0 ^ 2 in
      nth k v 0 =
      - (1 / 2) * ((M - nth k y 0) ^ 2 / var_k + ln var_k).
Proof.
  exists (bg_value x y M lnV); split; [apply lnlike_bg_eval|].
  split; [apply bg_value_length|].
  intros k Hk var_k; unfold bg_value, lscal, power.
  repeat first [nth_map | nth_map2].
  rewrite var_nth by exact Hk.
  subst var_k; lra.
Qed.

(** ** The log-probability *)

Lemma lnprob_rejected (m b Q M lnV : R) :
  lnprior [m; b; Q; M; lnV] = NegInf ->
  lnprob x y [m; b; Q; M; lnV] = Ok (NegInf, zeros_like y, zeros_like y).
Proof.
  intros H; unfold lnprob; simpl; rewrite H; reflexivity.
Qed.

Lemma lnprob_accepted (m b Q M lnV : R) :
  strictly_inside [m; b; Q; M; lnV] ->
  let arg1 := rscal Rplus (fg_value x y m b) (ln Q) in
  let arg2 := rscal Rplus (bg_value x y M lnV) (ln (1 - Q)) in
  lnprob x y [m; b; Q; M; lnV]
  = Ok (Finite (0 + np_sum (map2 logaddexp arg1 arg2)), arg1, arg2).
Proof.
  intros Hin arg1 arg2.
  pose proof (inside_Q _ _ _ _ _ Hin) as HQ.
  unfold lnprob; simpl.
  rewrite (lnprior_inside _ Hin); simpl.
  rewrite lnlike_fg_eval; simpl.
  rewrite log_pos by lra; simpl.
  rewrite lnlike_bg_eval; simpl.
  rewrite log_pos by lra; simpl.
  replace (1.0 - Q) with (1 - Q) by lra.
  unfold np_logaddexp; rewrite broadcast_same; [reflexivity|].
  unfold rscal; rewrite !length_map.
  rewrite fg_value_length, bg_value_length; reflexivity.
Qed.

Lemma arg_length (v : array) (c : R) :
  length (rscal Rplus v c) = length v.
Proof. unfold rscal; apply length_map. Qed.

Lemma arg_nth (v : array) (c : R) (k : nat) :
  (k < length v)%nat -> nth k (rscal Rplus v c) 0 = nth k v 0 + c.
Proof.
  intros H; unfold rscal; rewrite (nth_map_lt _ _ _ 0) by exact H; reflexivity.
Qed.

(** C1. For every parameter vector (m, b, Q, M, lnV) with every component
    strictly inside its bound, the log-prior is 0 and lnprob returns, first,
    the log-prior plus the sum over the K observations of
    logaddexp(ll_fg_k + log Q, ll_bg_k + log(1 - Q)), and then the two vectors
    of length K with entries ll_fg_k + log Q and ll_bg_k + log(1 - Q), where
    ll_fg and ll_bg are what the two likelihood evaluators return. *)
Theorem lnprob_inside_bounds (m b Q M lnV : R) :
  strictly_inside [m; b; Q; M; lnV] ->
  exists ll_fg ll_bg arg1 arg2,
    lnlike_fg x y [m; b; Q; M; lnV] = Ok ll_fg /\
    lnlike_bg x y [m; b; Q; M; lnV] = Ok ll_bg /\
    lnprior [m; b; Q; M; lnV] = Finite 0 /\
    lnprob x y [m; b; Q; M; lnV]
    = Ok (Finite (0 + big_sum (length x) (fun k =>
                        logaddexp (nth k ll_fg 0 + ln Q)
                                  (nth k ll_bg 0 + ln (1 - Q)))),
          arg1, arg2) /\
    length arg1 = length x /\ length arg2 = length x /\
    forall k, (k < length x)%nat ->
      nth k arg1 0 = nth k ll_fg 0 + ln Q /\
      nth k arg2 0 = nth k ll_bg 0 + ln (1 - Q).
Proof.
  intros Hin.
  pose proof (fg_value_length m b) as Lfg.
  pose proof (bg_value_length M lnV) as Lbg.
  exists (fg_value x y m b), (bg_value x y M lnV).
  exists (rscal Rplus (fg_value x y m b) (ln Q)).
  exists (rscal Rplus (bg_value x y M lnV) (ln (1 - Q))).
  split; [apply lnlike_fg_eval|].
  split; [apply lnlike_bg_eval|].
  split; [apply lnprior_inside; exact Hin|].
  split.
  - rewrite (lnprob_accepted _ _ _ _ _ Hin); simpl.
    rewrite np_sum_big_sum, map2_length_min, !arg_length, Lfg, Lbg.
    rewrite Nat.min_id.
    do 5 f_equal.
    apply big_sum_ext; intros k Hk.
    rewrite (nth_map2_lt _ _ _ _ 0 0) by (rewrite arg_length; lia).
    rewrite !arg_nth by lia; reflexivity.
  - rewrite !arg_length; repeat split; auto; apply arg_nth; lia.
Qed.

(** C2. For every parameter vector inside the bounds and every observation
    k, entry k of the combined per-point log-likelihood
    logaddexp(ll_fg + log Q, ll_bg + log(1 - Q)) that lnprob sums equals
    log(Q * p_fg_k + (1 - Q) * p_bg_k) with p_fg_k = exp(ll_fg_k) and
    p_bg_k = exp(ll_bg_k). *)
Theorem combined_loglike_linear_space (m b Q M lnV : R) :
  strictly_inside [m; b; Q; M; lnV] ->
  exists ll_fg ll_bg total arg1 arg2 combined,
    lnlike_fg x y [m; b; Q; M; lnV] = Ok ll_fg /\
    lnlike_bg x y [m; b; Q; M; lnV] = Ok ll_bg /\
    lnprob x y [m; b; Q; M; lnV] = Ok (total, arg1, arg2) /\
    np_logaddexp arg1 arg2 = Ok combined /\
    total = Finite (0 + np_sum combined) /\
    length combined = length x /\
    forall k, (k < length x)%nat ->
      let p_fg := exp (nth k ll_fg 0) in
      let p_bg := exp (nth k ll_bg 0) in
      nth k combined 0 = ln (Q * p_fg + (1 - Q) * p_bg).
Proof.
  intros Hin.
  pose proof (inside_Q _ _ _ _ _ Hin) as HQ.
  pose proof (fg_value_length m b) as Lfg.
  pose proof (bg_value_length M lnV) as Lbg.
  set (arg1 := rscal Rplus (fg_value x y m b) (ln Q)).
  set (arg2 := rscal Rplus (bg_value x y M lnV) (ln (1 - Q))).
  exists (fg_value x y m b), (bg_value x y M lnV).
  exists (Finite (0 + np_sum (map2 logaddexp arg1 arg2))), arg1, arg2.
  exists (map2 logaddexp arg1 arg2).
  assert (L12 : length arg1 = length arg2)
    by (unfold arg1, arg2; rewrite !arg_length; lia).
  split; [apply lnlike_fg_eval|].
  split; [apply lnlike_bg_eval|].
  split; [apply (lnprob_accepted _ _ _ _ _ Hin)|].
  split; [apply broadcast_same; exact L12|].
  split; [reflexivity|].
  split.
  - rewrite map2_length by exact L12; unfold arg1; rewrite arg_length; lia.
  - intros k Hk p_fg p_bg.
    rewrite (nth_map2_lt _ _ _ _ 0 0)
      by (unfold arg1, arg2; rewrite arg_length; lia).
    unfold arg1, arg2; rewrite !arg_nth by lia.
    rewrite logaddexp_direct, !exp_plus_ln by lra; reflexivity.
Qed.

(** C3. For every parameter vector with some component that is not strictly
    between the two ends of its bound, lnprob returns minus infinity together
    with two all-zero vectors, each with one entry per observation. *)
Theorem lnprob_outside_bounds (m b Q M lnV : R) :
  some_outside [m; b; Q; M; lnV] ->
  lnprob x y [m; b; Q; M; lnV]
  = Ok (NegInf, repeat 0 (length x), repeat 0 (length x)).
Proof.
  intros Hout.
  rewrite lnprob_rejected by (apply lnprior_outside; exact Hout).
  unfold zeros_like, zeros; rewrite Hxy; reflexivity.
Qed.

Lemma endpoint_outside (p : array) : on_endpoint p -> some_outside p.
Proof.
  intros [i [v [lo [hi [Hp [Hb He]]]]]].
  exists i, v, lo, hi; repeat split; auto.
  intros [H1 H2]; destruct He; subst; lra.
Qed.

(** C10. For every parameter vector with some component exactly equal to an
    end of its bound, the prior rejects it (the comparison is strict on both
    sides) and lnprob returns minus infinity. *)
Theorem lnprob_on_endpoint (m b Q M lnV : R) :
  on_endpoint [m; b; Q; M; lnV] ->
  lnprior [m; b; Q; M; lnV] = NegInf /\
  lnprob x y [m; b; Q; M; lnV] = Ok (NegInf, zeros_like y, zeros_like y).
Proof.
  intros He.
  assert (Hp : lnprior [m; b; Q; M; lnV] = NegInf)
    by (apply lnprior_outside, endpoint_outside; exact He).
  split; [exact Hp|].
  apply lnprob_rejected; exact Hp.
Qed.

(** C5. For every parameter vector inside the bounds and every observation
    k, the membership term exp(arg1_k - logaddexp(arg1_k, arg2_k)) computed
    from the two vectors lnprob returns, arg1 = ll_fg + log Q and
    arg2 = ll_bg + log(1 - Q), equals
    Q * p_fg_k / (Q * p_fg_k + (1 - Q) * p_bg_k) with p_fg_k = exp(ll_fg_k)
    and p_bg_k = exp(ll_bg_k). *)
Theorem membership_term_posterior (m b Q M lnV : R) :
  strictly_inside [m; b; Q; M; lnV] ->
  exists ll_fg ll_bg total arg1 arg2 term,
    lnlike_fg x y [m; b; Q; M; lnV] = Ok ll_fg /\
    lnlike_bg x y [m; b; Q; M; lnV] = Ok ll_bg /\
    lnprob x y [m; b; Q; M; lnV] = Ok (total, arg1, arg2) /\
    membership arg1 arg2 = Ok term /\
    length term = length x /\
    forall k, (k < length x)%nat ->
      let p_fg := exp (nth k ll_fg 0) in
      let p_bg := exp (nth k ll_bg 0) in
      nth k term 0 = exp (nth k arg1 0 - logaddexp (nth k arg1 0) (nth k arg2 0))
      /\ nth k term 0 = Q * p_fg / (Q * p_fg + (1 - Q) * p_bg).
Proof.
  intros Hin.
  pose proof (inside_Q _ _ _ _ _ Hin) as HQ.
  pose proof (fg_value_length m b) as Lfg.
  pose proof (bg_value_length M lnV) as Lbg.
  set (arg1 := rscal Rplus (fg_value x y m b) (ln Q)).
  set (arg2 := rscal Rplus (bg_value x y M lnV) (ln (1 - Q))).
  assert (L1 : length arg1 = length x)
    by (unfold arg1; rewrite arg_length; exact Lfg).
  assert (L12 : length arg1 = length arg2)
    by (unfold arg1, arg2; rewrite !arg_length; lia).
  exists (fg_value x y m b), (bg_value x y M lnV).
  exists (Finite (0 + np_sum (map2 logaddexp arg1 arg2))), arg1, arg2.
  exists (np_exp (map2 Rminus arg1 (map2 logaddexp arg1 arg2))).
  split; [apply lnlike_fg_eval|].
  split; [apply lnlike_bg_eval|].
  split; [apply (lnprob_accepted _ _ _ _ _ Hin)|].
  split; [apply membership_same; exact L12|].
  split; [rewrite membership_value_length by exact L12; exact L1|].
  intros k Hk p_fg p_bg.
  rewrite membership_value_nth by (auto; lia).
  split; [reflexivity|].
  rewrite exp_minus_logaddexp.
  unfold arg1, arg2; rewrite !arg_nth by lia.
  rewrite !exp_plus_ln by lra; reflexivity.
Qed.

(** C9. For every parameter vector the prior accepts, every logarithm
    argument and every divisor evaluated inside lnprob is strictly positive:
    Q > 0, 1 - Q > 0, sigma_k > 0 and var_k = exp(lnV) + sigma_k^2 > 0; so
    every guarded logarithm and division succeeds and lnprob returns a value
    rather than stopping on a floating-point error. *)
Theorem lnprob_arguments_positive (m b Q M lnV : R) :
  lnprior [m; b; Q; M; lnV] = Finite 0 ->
  0 < Q /\ 0 < 1 - Q /\
  (forall k, (k < length x)%nat ->
     0 < nth k (yerr x) 0 /\
     nth k (var x lnV) 0 = exp lnV + nth k (yerr x) 0 ^ 2 /\
     0 < nth k (var x lnV) 0) /\
  (exists lQ l1Q lerr lvar,
     log Q = Ok lQ /\ log (1.0 - Q) = Ok l1Q /\
     np_log (yerr x) = Ok lerr /\ np_log (var x lnV) = Ok lvar) /\
  (exists ll_fg ll_bg r,
     lnlike_fg x y [m; b; Q; M; lnV] = Ok ll_fg /\
     lnlike_bg x y [m; b; Q; M; lnV] = Ok ll_bg /\
     lnprob x y [m; b; Q; M; lnV] = Ok r).
Proof.
  intros Hacc; apply lnprior_accepts in Hacc.
  pose proof (inside_Q _ _ _ _ _ Hacc) as HQ.
  split; [lra|]. split; [lra|].
  split.
  - intros k Hk.
    pose proof (yerr_nth k Hk) as Hs.
    rewrite var_nth by exact Hk.
    pose proof (exp_pos lnV).
    pose proof (pow2_ge_0 (nth k (yerr x) 0)).
    repeat split; lra.
  - split.
    + exists (ln Q), (ln (1.0 - Q)), (map ln (yerr x)), (map ln (var x lnV)).
      rewrite !log_pos by lra.
      rewrite np_log_pos by apply yerr_pos.
      rewrite np_log_pos by apply var_pos.
      repeat split.
    + eexists; eexists; eexists.
      split; [apply lnlike_fg_eval|].
      split; [apply lnlike_bg_eval|].
      apply (lnprob_accepted _ _ _ _ _ Hacc).
Qed.

End Evaluator.

(** ** The summarising loop *)

Lemma getitem_lt {A : Type} (l : list A) (i : nat) (d : A) :
  (i < length l)%nat -> getitem l i = Ok (nth i l d).
Proof.
  intros H; unfold getitem.
  rewrite (nth_error_nth' l d H); reflexivity.
Qed.

Lemma iadd_same (acc v : array) :
  length v = length acc -> iadd acc v = Ok (map2 Rplus acc v).
Proof.
  intros H; unfold iadd; rewrite (proj2 (Nat.eqb_eq _ _) H); reflexivity.
Qed.

Lemma idivide_nonzero (acc : array) (c : R) :
  c <> 0 -> idivide acc c = Ok (map (fun u => u / c) acc).
Proof.
  intros H; unfold idivide; apply mapM_ok, Forall_forall.
  intros u _; apply divide_nonzero; exact H.
Qed.

(** A loop over [s, s + n) whose body adds [g t k] to entry [k] of the
    accumulator and [c] to the counter. *)
Lemma foldM_accumulate (K : nat) (body : nat -> array * R -> res (array * R))
  (g : nat -> nat -> R) (c : R) (n : nat) :
  forall (s : nat) (acc : array) (norm : R),
    (forall t acc' norm', (s <= t < s + n)%nat -> length acc' = K ->
       exists acc'',
         body t (acc', norm') = Ok (acc'', norm' + c) /\
         length acc'' = K /\
         forall k, (k < K)%nat -> nth k acc'' 0 = nth k acc' 0 + g t k) ->
    length acc = K ->
    exists out,
      foldM body (seq s n) (acc, norm) = Ok (out, norm + INR n * c) /\
      length out = K /\
      forall k, (k < K)%nat ->
        nth k out 0 = nth k acc 0 + big_sum n (fun t => g (s + t)%nat k).
Proof.
  induction n as [|n IH]; intros s acc norm Hbody Hacc.
  - exists acc; simpl; repeat split; auto; [do 2 f_equal; lra | intros; lra].
  - destruct (Hbody s acc norm ltac:(lia) Hacc) as [acc1 [E1 [L1 N1]]].
    destruct (IH (S s) acc1 (norm + c)) as [out [E2 [L2 N2]]]; auto.
    { intros t acc' norm' Ht Hl; apply Hbody; [lia | exact Hl]. }
    exists out; split; [|split; [exact L2|]].
    + cbn [seq foldM]; rewrite E1; cbn [bind]; rewrite E2.
      rewrite S_INR; do 2 f_equal; lra.
    + intros k Hk; rewrite (N2 k Hk), (N1 k Hk), big_sum_shift.
      rewrite Nat.add_0_r.
      rewrite (big_sum_ext n (fun t => g (S s + t)%nat k)
                 (fun t => g (s + S t)%nat k))
        by (intros; f_equal; lia).
      lra.
Qed.

Lemma big_sum_bounds (n : nat) (f : nat -> R) (lo hi : R) :
  (forall k, (k < n)%nat -> lo <= f k <= hi) ->
  INR n * lo <= big_sum n f <= INR n * hi.
Proof.
  induction n as [|n IH]; intros H.
  - simpl; lra.
  - rewrite S_INR; cbn [big_sum].
    specialize (IH ltac:(intros; apply H; lia)).
    specialize (H n ltac:(lia)); lra.
Qed.

Lemma big_sum_nth {A : Type} (f : A -> R) (l : list A) (d : A) :
  big_sum (length l) (fun i => f (nth i l d)) = np_sum (map f l).
Proof.
  rewrite np_sum_big_sum, length_map; apply big_sum_ext; intros i Hi.
  rewrite (nth_map_lt _ _ _ d) by exact Hi; reflexivity.
Qed.

Lemma np_sum_app (a b : array) : np_sum (a ++ b) = np_sum a + np_sum b.
Proof.
  unfold np_sum; induction a as [|u a IH]; simpl; [lra|].
  rewrite IH; lra.
Qed.

Lemma np_sum_concat {A : Type} (f : A -> R) (rows : list (list A)) :
  np_sum (map f (concat rows))
  = np_sum (map (fun row => np_sum (map f row)) rows).
Proof.
  induction rows as [|row rows IH]; [reflexivity|].
  cbn [concat map]; rewrite map_app, np_sum_app, IH; reflexivity.
Qed.

Lemma concat_length_rows {A : Type} (w : nat) (rows : list (list A)) :
  Forall (fun row => length row = w) rows ->
  length (concat rows) = (length rows * w)%nat.
Proof.
  induction 1 as [|row rows Hrow _ IH]; [reflexivity|].
  cbn [concat length]; rewrite length_app, IH, Hrow; lia.
Qed.

(** Summing over the samples in storage order is summing over the steps and,
    within a step, over the walkers. *)
Lemma big_sum_concat {A : Type} (f : A -> R) (d : A) (w : nat)
  (rows : list (list A)) :
  Forall (fun row => length row = w) rows ->
  big_sum (length rows * w) (fun n => f (nth n (concat rows) d))
  = big_sum (length rows)
      (fun i => big_sum w (fun j => f (nth j (nth i rows []) d))).
Proof.
  intros H.
  rewrite <- (concat_length_rows w rows H), big_sum_nth, np_sum_concat.
  rewrite <- (big_sum_nth (fun row => np_sum (map f row)) rows []).
  apply big_sum_ext; intros i Hi.
  rewrite <- (big_sum_nth f (nth i rows []) d).
  rewrite Forall_forall in H.
  rewrite (H (nth i rows [])) by (apply nth_In; exact Hi); reflexivity.
Qed.

(** The loop reads the shape of the chain and the blobs, nothing else. *)
Lemma post_prob_same_store (x : array) (s1 s2 : EnsembleSampler) :
  shape (chain s1) = shape (chain s2) -> blobs s1 = blobs s2 ->
  post_prob x s1 = post_prob x s2.
Proof.
  destruct s1 as [c1 b1], s2 as [c2 b2]; simpl; intros Hs Hb; subst b2.
  unfold post_prob, post_prob_body, shape0, shape1; simpl.
  rewrite Hs; reflexivity.
Qed.

Section Summary.

Variable x : array.
Variable sampler : EnsembleSampler.
Variables nwalkers nsteps ndim : nat.

Hypothesis Hshape : shape (chain sampler) = (nwalkers, nsteps, ndim).
Hypothesis Hblobs : blobs_shaped (length x) nwalkers nsteps (blobs sampler).

Abbreviation bl := (blobs sampler).
Abbreviation term := (blob_term (blobs sampler)).

Lemma blobs_row (i : nat) :
  (i < nsteps)%nat -> length (nth i bl []) = nwalkers.
Proof.
  intros Hi; destruct Hblobs as [Hl Hrows].
  rewrite Forall_forall in Hrows.
  apply (Hrows (nth i bl [])), nth_In; lia.
Qed.

Lemma blobs_entry (i j : nat) :
  (i < nsteps)%nat -> (j < nwalkers)%nat ->
  length (fst (nth j (nth i bl []) ([], []))) = length x /\
  length (snd (nth j (nth i bl []) ([], []))) = length x.
Proof.
  intros Hi Hj; pose proof (blobs_row i Hi) as Hrow.
  destruct Hblobs as [Hl Hrows].
  rewrite Forall_forall in Hrows.
  assert (Hin : In (nth i bl []) bl) by (apply nth_In; lia).
  destruct (Hrows _ Hin) as [_ Hent].
  rewrite Forall_forall in Hent.
  apply (Hent (nth j (nth i bl []) ([], []))), nth_In; lia.
Qed.

Lemma post_prob_body_adds (i j : nat) (acc : array) (norm : R) :
  (i < nsteps)%nat -> (j < nwalkers)%nat -> length acc = length x ->
  exists acc',
    post_prob_body sampler i j (acc, norm) = Ok (acc', norm + 1) /\
    length acc' = length x /\
    forall k, (k < length x)%nat -> nth k acc' 0 = nth k acc 0 + term i j k.
Proof.
  intros Hi Hj Hacc.
  destruct (blobs_entry i j Hi Hj) as [Lfg Lbg].
  pose proof (blobs_row i Hi) as Hrow.
  unfold post_prob_body.
  rewrite (getitem_lt _ i []) by (destruct Hblobs; lia); cbn [bind].
  rewrite (getitem_lt _ j ([], [])) by lia; cbn [bind].
  destruct (nth j (nth i bl []) ([], [])) as [ll_fg ll_bg] eqn:Eb.
  simpl in Lfg, Lbg.
  rewrite membership_same by lia; cbn [bind].
  rewrite iadd_same by (rewrite membership_value_length; lia); cbn [bind].
  eexists; split; [reflexivity|]; split.
  - rewrite map2_length; [exact Hacc|].
    rewrite membership_value_length; lia.
  - intros k Hk.
    rewrite (nth_map2_lt _ _ _ _ 0 0)
      by (rewrite ?membership_value_length; lia).
    rewrite membership_value_nth by lia.
    unfold blob_term, sample_term; rewrite Eb; reflexivity.
Qed.

Lemma post_prob_loops :
  exists acc,
    foldM (fun i st =>
             foldM (fun j st => post_prob_body sampler i j st)
                   (range (shape0 (chain sampler))) st)
          (range (shape1 (chain sampler))) (zeros (length x), 0.0)
    = Ok (acc, 0.0 + INR nsteps * (INR nwalkers * 1)) /\
    length acc = length x /\
    forall k, (k < length x)%nat ->
      nth k acc 0
      = big_sum nsteps (fun i => big_sum nwalkers (fun j => term i j k)).
Proof.
  unfold shape0, shape1, range; rewrite Hshape; cbn [fst snd].
  destruct (foldM_accumulate (length x)
              (fun i st =>
                 foldM (fun j st => post_prob_body sampler i j st)
                       (seq 0 nwalkers) st)
              (fun i k => big_sum nwalkers (fun j => term i j k))
              (INR nwalkers * 1) nsteps 0%nat (zeros (length x)) 0.0)
    as [acc [E [L N]]].
  - intros i acc' norm' Hi Hl.
    apply (foldM_accumulate (length x)
             (fun j st => post_prob_body sampler i j st)
             (fun j k => term i j k) 1 nwalkers 0%nat acc' norm');
      [|exact Hl].
    intros j acc2 norm2 Hj Hl2.
    apply post_prob_body_adds; auto; lia.
  - unfold zeros; apply repeat_length.
  - exists acc; split; [exact E|]; split; [exact L|].
    intros k Hk; rewrite (N k Hk).
    unfold zeros; rewrite nth_repeat_lt by exact Hk; simpl; lra.
Qed.
Hypothesis Hsamples : (0 < nsteps * nwalkers)%nat.

Lemma norm_value : 0.0 + INR nsteps * (INR nwalkers * 1) = INR (nsteps * nwalkers).
Proof. rewrite mult_INR; lra. Qed.

Lemma norm_positive : 0 < INR (nsteps * nwalkers).
Proof. apply lt_0_INR; exact Hsamples. Qed.

Lemma post_prob_returns :
  exists v,
    post_prob x sampler = Ok v /\
    length v = length x /\
    forall k, (k < length x)%nat ->
      nth k v 0
      = big_sum nsteps (fun i => big_sum nwalkers (fun j => term i j k))
        / INR (nsteps * nwalkers).
Proof.
  destruct post_prob_loops as [acc [E [L N]]].
  pose proof norm_positive as Hn.
  exists (map (fun u => u / INR (nsteps * nwalkers)) acc).
  split; [|split].
  - unfold post_prob; rewrite E; cbn [bind].
    rewrite norm_value; apply idivide_nonzero; lra.
  - rewrite length_map; exact L.
  - intros k Hk.
    rewrite (nth_map_lt _ _ _ 0) by lia.
    rewrite (N k Hk); reflexivity.
Qed.

Lemma term_unit_interval (i j k : nat) : 0 <= term i j k <= 1.
Proof.
  unfold blob_term, sample_term; rewrite exp_minus_logaddexp.
  apply share_unit_interval; apply exp_pos.
Qed.

Lemma blobs_rows : Forall (fun row => length row = nwalkers) bl.
Proof.
  destruct Hblobs as [_ Hrows].
  eapply Forall_impl; [|exact Hrows]; intros row [Hrow _]; exact Hrow.
Qed.

(** C4. For every non-empty collection of N retained samples whose blobs are
    pairs of vectors of length K, where N is the number of production steps
    times the number of walkers, the summarising loop returns a vector of
    length K whose entry k is (1/N) times the sum over the samples i of
    exp(ll_fg_i[k] - logaddexp(ll_fg_i[k], ll_bg_i[k])); and it returns the
    same vector on any sampler whose chain has the same shape and whose
    stored blobs are the same. *)
Theorem post_prob_average :
  let samples := concat (blobs sampler) in
  let N := (nsteps * nwalkers)%nat in
  length samples = N /\
  exists v,
    post_prob x sampler = Ok v /\
    length v = length x /\
    (forall k, (k < length x)%nat ->
       nth k v 0
       = 1 / INR N
         * big_sum N (fun i =>
             let '(ll_fg, ll_bg) := nth i samples ([], []) in
             exp (nth k ll_fg 0 - logaddexp (nth k ll_fg 0) (nth k ll_bg 0))))
    /\
    (forall sampler',
       shape (chain sampler') = shape (chain sampler) ->
       blobs sampler' = blobs sampler ->
       post_prob x sampler' = Ok v).
Proof.
  intros samples N.
  pose proof blobs_rows as Hrows.
  assert (Hlen : length bl = nsteps) by (destruct Hblobs; assumption).
  split.
  { unfold samples, N; rewrite (concat_length_rows nwalkers) by exact Hrows.
    rewrite Hlen; reflexivity. }
  destruct post_prob_returns as [v [E [L Hv]]].
  exists v; split; [exact E|]; split; [exact L|]; split.
  - intros k Hk; rewrite (Hv k Hk).
    pose proof (big_sum_concat (fun s => sample_term s k) ([], []) nwalkers
                  bl Hrows) as Hflat.
    rewrite Hlen in Hflat; fold samples N in Hflat.
    rewrite (big_sum_ext N _ (fun n => sample_term (nth n samples ([], [])) k)).
    + rewrite Hflat; unfold N, blob_term, Rdiv; ring.
    + intros n _; destruct (nth n samples ([], [])); reflexivity.
  - intros sampler' Hs Hb; rewrite <- E.
    apply post_prob_same_store; assumption.
Qed.

(** C6. For every collection of N >= 1 real-valued blob pairs over K
    observations, the summarising loop returns a vector of length K and every
    entry of it lies in the closed interval [0, 1]. *)
Theorem post_prob_unit_interval :
  exists v,
    post_prob x sampler = Ok v /\
    length v = length x /\
    Forall (fun q => 0 <= q <= 1) v.
Proof.
  destruct post_prob_returns as [v [E [L N]]].
  pose proof norm_positive as Hn.
  exists v; split; [exact E|]; split; [exact L|].
  apply Forall_forall; intros q Hq.
  destruct (In_nth v q 0 Hq) as [k [Hk <-]].
  rewrite N by lia.
  assert (Hsum : INR nsteps * (INR nwalkers * 0)
                 <= big_sum nsteps (fun i => big_sum nwalkers
                                                (fun j => term i j k))
                 <= INR nsteps * (INR nwalkers * 1)).
  { apply big_sum_bounds; intros i _.
    apply big_sum_bounds; intros j _.
    apply term_unit_interval. }
  rewrite mult_INR in *.
  split.
  - apply Rmult_le_pos; [lra|]. apply Rlt_le, Rinv_0_lt_compat; exact Hn.
  - apply (Rmult_le_reg_r (INR nsteps * INR nwalkers)); [exact Hn|].
    unfold Rdiv; rewrite Rmult_assoc, Rinv_l by lra; lra.
Qed.

End Summary.

(** * Worked instances *)

Example logaddexp_zero : logaddexp 0 0 = ln 2.
Proof.
  unfold logaddexp; destruct (Req_dec_T 0 0) as [_|H]; [lra | contradiction].
Qed.

Example even_membership : exp (0 - logaddexp 0 0) = 1 / 2.
Proof. rewrite exp_minus_logaddexp, exp_0; lra. Qed.

Example lnprior_theta0 : lnprior theta0 = Finite 0.
Proof.
  apply lnprior_inside; unfold strictly_inside, theta0, bounds.
  repeat constructor; simpl; lra.
Qed.

Example lnprior_Q_one : lnprior [1; 0; 1; 0; 0] = NegInf.
Proof.
  apply lnprior_outside; exists 2%nat, 1, 0, 1.
  split; [reflexivity|]; split; [reflexivity|]; lra.
Qed.

Example lnprior_m_low : lnprior [0.1; 0; 0.5; 0; 0] = NegInf.
Proof.
  apply lnprior_outside; exists 0%nat, 0.1, 0.1, 1.9.
  split; [reflexivity|]; split; [reflexivity|]; lra.
Qed.

Example lnprob_short_vector : lnprob x0 y0 [1; 0; 0.5] = Raise ValueError.
Proof. reflexivity. Qed.

Example lnlike_fg_one_point : lnlike_fg [1] [1] theta0 = Ok [- ln 0.2].
Proof.
  unfold lnlike_fg, theta0, np_subtract, np_divide, np_add, np_log, broadcast,
    yerr; simpl.
  rewrite divide_nonzero, log_pos by lra; simpl.
  replace (0.2 * 1) with 0.2 by lra.
  do 2 f_equal; lra.
Qed.

(** A single stored sample whose two vectors agree gives every point the
    membership probability one half. *)
Example post_prob_sentinel :
  post_prob x0
    {| chain := {| shape := (1%nat, 1%nat, 5%nat); item := fun _ _ _ => 0 |};
       blobs := [[([0; 0], [0; 0])]] |}
  = Ok [1 / 2; 1 / 2].
Proof.
  unfold post_prob, post_prob_body, membership, np_logaddexp, np_subtract,
    broadcast, iadd, idivide, shape0, shape1, range; simpl.
  rewrite !divide_nonzero by lra; simpl.
  rewrite logaddexp_zero.
  assert (H : exp (0 - ln 2) = 1 / 2).
  { unfold Rminus; rewrite Rplus_0_l, exp_Ropp, exp_ln by lra; lra. }
  rewrite H; replace ((0 + 1 / 2) / (0.0 + 1)) with (1 / 2) by lra.
  reflexivity.
Qed.

(** No stored sample at all: the final division is 0/0. *)
Example post_prob_no_sample :
  post_prob x0
    {| chain := {| shape := (0%nat, 0%nat, 5%nat); item := fun _ _ _ => 0 |};
       blobs := [] |}
  = Raise FloatingPointError.
Proof.
  unfold post_prob, idivide, shape0, shape1, range; simpl.
  unfold divide; destruct (Req_dec_T 0.0 0) as [_|H]; [reflexivity | lra].
Qed.

Ltac inside_bounds :=
  unfold strictly_inside, theta0, bounds; repeat constructor; simpl; lra.

Lemma lnlike_fg_entries_witness :
  length y0 = length x0 /\
  exists v,
    lnlike_fg x0 y0 theta0 = Ok v /\
    length v = 2%nat /\
    nth 1 v 0
    = - (1 / 2) * (((1 * 1 + 0 - 2) / nth 1 (yerr x0) 0) ^ 2
                   + 2 * ln (nth 1 (yerr x0) 0)).
Proof.
  split; [reflexivity|].
  destruct (lnlike_fg_entries x0 y0 eq_refl 1 0 0.5 0 0) as [v [E [L N]]].
  exists v; split; [exact E|]; split; [exact L|].
  apply (N 1%nat); simpl; lia.
Defined.

Lemma lnlike_bg_entries_witness :
  length y0 = length x0 /\
  exists v,
    lnlike_bg x0 y0 theta0 = Ok v /\
    length v = 2%nat /\
    nth 1 v 0
    = - (1 / 2) * ((0 - 2) ^ 2 / (exp 0 + nth 1 (yerr x0) 0 ^ 2)
                   + ln (exp 0 + nth 1 (yerr x0) 0 ^ 2)).
Proof.
  split; [reflexivity|].
  destruct (lnlike_bg_entries x0 y0 eq_refl 1 0 0.5 0 0) as [v [E [L N]]].
  exists v; split; [exact E|]; split; [exact L|].
  apply (N 1%nat); simpl; lia.
Defined.

Lemma lnprob_inside_bounds_witness :
  length y0 = length x0 /\ strictly_inside theta0 /\
  exists ll_fg ll_bg arg1 arg2,
    lnlike_fg x0 y0 theta0 = Ok ll_fg /\
    lnlike_bg x0 y0 theta0 = Ok ll_bg /\
    lnprob x0 y0 theta0
    = Ok (Finite (0 + big_sum 2 (fun k =>
                        logaddexp (nth k ll_fg 0 + ln 0.5)
                                  (nth k ll_bg 0 + ln (1 - 0.5)))),
          arg1, arg2) /\
    length arg1 = 2%nat /\ length arg2 = 2%nat.
Proof.
  split; [reflexivity|]; split; [inside_bounds|].
  destruct (lnprob_inside_bounds x0 y0 eq_refl 1 0 0.5 0 0)
    as [ll_fg [ll_bg [arg1 [arg2 [Ef [Eb [_ [E [L1 [L2 _]]]]]]]]]];
    [inside_bounds|].
  exists ll_fg, ll_bg, arg1, arg2; repeat split; assumption.
Defined.

Lemma combined_loglike_linear_space_witness :
  length y0 = length x0 /\ strictly_inside theta0 /\
  exists ll_fg ll_bg total arg1 arg2 combined,
    lnlike_fg x0 y0 theta0 = Ok ll_fg /\
    lnlike_bg x0 y0 theta0 = Ok ll_bg /\
    lnprob x0 y0 theta0 = Ok (total, arg1, arg2) /\
    np_logaddexp arg1 arg2 = Ok combined /\
    nth 0 combined 0
    = ln (0.5 * exp (nth 0 ll_fg 0) + (1 - 0.5) * exp (nth 0 ll_bg 0)).
Proof.
  split; [reflexivity|]; split; [inside_bounds|].
  destruct (combined_loglike_linear_space x0 y0 eq_refl 1 0 0.5 0 0)
    as [ll_fg [ll_bg [total [arg1 [arg2 [combined
          [Ef [Eb [E [Ec [_ [_ N]]]]]]]]]]]];
    [inside_bounds|].
  exists ll_fg, ll_bg, total, arg1, arg2, combined.
  repeat split; try assumption.
  apply (N 0%nat); simpl; lia.
Defined.

Lemma lnprob_outside_bounds_witness :
  length y0 = length x0 /\ some_outside [1; 0; 1.5; 0; 0] /\
  lnprob x0 y0 [1; 0; 1.5; 0; 0] = Ok (NegInf, [0; 0], [0; 0]).
Proof.
  assert (H : some_outside [1; 0; 1.5; 0; 0]).
  { exists 2%nat, 1.5, 0, 1.
    split; [reflexivity|]; split; [reflexivity|]; lra. }
  split; [reflexivity|]; split; [exact H|].
  exact (lnprob_outside_bounds x0 y0 eq_refl 1 0 1.5 0 0 H).
Defined.

Lemma lnprob_on_endpoint_witness :
  on_endpoint [1; 0; 0; 0; 0] /\
  lnprior [1; 0; 0; 0; 0] = NegInf /\
  lnprob x0 y0 [1; 0; 0; 0; 0] = Ok (NegInf, [0; 0], [0; 0]).
Proof.
  assert (H : on_endpoint [1; 0; 0; 0; 0]).
  { exists 2%nat, 0, 0, 1.
    split; [reflexivity|]; split; [reflexivity|]; left; reflexivity. }
  split; [exact H|].
  exact (lnprob_on_endpoint x0 y0 1 0 0 0 0 H).
Defined.

Lemma membership_term_posterior_witness :
  length y0 = length x0 /\ strictly_inside theta0 /\
  exists ll_fg ll_bg total arg1 arg2 term,
    lnlike_fg x0 y0 theta0 = Ok ll_fg /\
    lnlike_bg x0 y0 theta0 = Ok ll_bg /\
    lnprob x0 y0 theta0 = Ok (total, arg1, arg2) /\
    membership arg1 arg2 = Ok term /\
    nth 0 term 0
    = 0.5 * exp (nth 0 ll_fg 0)
      / (0.5 * exp (nth 0 ll_fg 0) + (1 - 0.5) * exp (nth 0 ll_bg 0)).
Proof.
  split; [reflexivity|]; split; [inside_bounds|].
  destruct (membership_term_posterior x0 y0 eq_refl 1 0 0.5 0 0)
    as [ll_fg [ll_bg [total [arg1 [arg2 [term
          [Ef [Eb [E [Em [_ N]]]]]]]]]]];
    [inside_bounds|].
  exists ll_fg, ll_bg, total, arg1, arg2, term.
  repeat split; try assumption.
  apply (N 0%nat); simpl; lia.
Defined.

Lemma lnprob_arguments_positive_witness :
  length y0 = length x0 /\ lnprior theta0 = Finite 0 /\
  0 < 0.5 /\ 0 < 1 - 0.5 /\
  0 < nth 0 (yerr x0) 0 /\ 0 < nth 0 (var x0 0) 0 /\
  exists r, lnprob x0 y0 theta0 = Ok r.
Proof.
  assert (H : lnprior theta0 = Finite 0) by (apply lnprior_inside; inside_bounds).
  split; [reflexivity|]; split; [exact H|].
  destruct (lnprob_arguments_positive x0 y0 eq_refl 1 0 0.5 0 0 H)
    as [HQ [H1Q [Hk [_ [ll_fg [ll_bg [r [_ [_ E]]]]]]]]].
  destruct (Hk 0%nat) as [Hs [_ Hv]]; [simpl; lia|].
  split; [exact HQ|]; split; [exact H1Q|].
  split; [exact Hs|]; split; [exact Hv|].
  exists r; exact E.
Defined.

Ltac sampler0_shaped :=
  unfold blobs_shaped, sampler0; simpl; split; [reflexivity|];
  repeat constructor.

Lemma post_prob_average_witness :
  shape (chain sampler0) = (2%nat, 1%nat, 5%nat) /\
  blobs_shaped (length x0) 2 1 (blobs sampler0) /\
  (0 < 1 * 2)%nat /\
  exists v,
    post_prob x0 sampler0 = Ok v /\
    length v = 2%nat /\
    nth 0 v 0
    = 1 / INR 2
      * (0 + exp (-1 - logaddexp (-1) 0) + exp (0 - logaddexp 0 0)).
Proof.
  split; [reflexivity|]; split; [sampler0_shaped|]; split; [lia|].
  destruct (post_prob_average x0 sampler0 2 1 5 eq_refl)
    as [_ [v [E [L [N _]]]]]; [sampler0_shaped | lia |].
  exists v; split; [exact E|]; split; [exact L|].
  apply (N 0%nat); simpl; lia.
Defined.

Lemma post_prob_unit_interval_witness :
  shape (chain sampler0) = (2%nat, 1%nat, 5%nat) /\
  blobs_shaped (length x0) 2 1 (blobs sampler0) /\
  (0 < 1 * 2)%nat /\
  exists v,
    post_prob x0 sampler0 = Ok v /\
    length v = 2%nat /\
    Forall (fun q => 0 <= q <= 1) v.
Proof.
  split; [reflexivity|]; split; [sampler0_shaped|]; split; [lia|].
  apply (post_prob_unit_interval x0 sampler0 2 1 5 eq_refl);
    [sampler0_shaped | lia].
Defined.

(** * Further properties of the evaluator *)

Lemma forallb_rejects (p : array) (bs : list (R * R)) :
  forallb (fun '(v, b) => Rltb (fst b) v && Rltb v (snd b)) (combine p bs)
  = false ->
  exists i v lo hi,
    nth_error p i = Some v /\ nth_error bs i = Some (lo, hi) /\
    ~ (lo < v < hi).
Proof.
  revert bs; induction p as [|u p IH]; intros [|[lo hi] bs] H; simpl in H;
    try discriminate.
  apply andb_false_iff in H; destruct H as [H|H].
  - exists 0%nat, u, lo, hi; repeat split; auto.
    intros Hin; apply inside_bool in Hin; simpl in H; congruence.
  - destruct (IH bs H) as [i [v [lo' [hi' [Hp [Hb Hout]]]]]].
    exists (S i), v, lo', hi'; repeat split; auto.
Qed.

Lemma combine_firstn_left {A B : Type} (l : list A) (bs : list B) :
  combine (firstn (length bs) l) bs = combine l bs.
Proof.
  revert bs; induction l as [|a l IH]; intros [|b bs]; simpl; auto.
  rewrite IH; reflexivity.
Qed.

(** X1. The prior rejects a vector, of any length, exactly when one of the
    components that [zip] pairs with a bound is not strictly inside it;
    components past the last bound are never looked at, and a vector with no
    component at all is accepted. *)
Theorem lnprior_rejects_iff (p : array) :
  (lnprior p = NegInf <-> some_outside p) /\
  (lnprior p = Finite 0 <-> ~ some_outside p) /\
  lnprior p = lnprior (firstn (length bounds) p).
Proof.
  assert (Hiff : lnprior p = NegInf <-> some_outside p).
  { split; [|apply lnprior_outside].
    unfold lnprior.
    destruct (forallb _ (combine p bounds)) eqn:E; simpl; [discriminate|].
    intros _; apply forallb_rejects; exact E. }
  split; [exact Hiff|]; split.
  - split.
    + intros H Hout; apply Hiff in Hout; congruence.
    + intros H; unfold lnprior.
      destruct (forallb _ (combine p bounds)) eqn:E; simpl; [reflexivity|].
      exfalso; apply H, forallb_rejects; exact E.
  - unfold lnprior; rewrite <- combine_firstn_left; reflexivity.
Qed.

(** X2. A vector that does not have exactly five components cannot be unpacked:
    the two likelihoods and lnprob raise ValueError, whatever the prior would
    say of it. *)
Theorem evaluator_wrong_length (x y p : array) :
  length p <> 5%nat ->
  lnlike_fg x y p = Raise ValueError /\
  lnlike_bg x y p = Raise ValueError /\
  lnprob x y p = Raise ValueError.
Proof.
  intros H.
  destruct p as [|a [|b [|c [|d [|e [|f p]]]]]]; simpl in H;
    try (exfalso; apply H; reflexivity); repeat split; reflexivity.
Qed.

Ltac data_len :=
  unfold fg_value, bg_value, lscal, rscal, power, np_exp, zeros_like, zeros;
  rewrite ?length_map, ?map2_length_min, ?length_map, ?map2_length_min,
    ?length_map, ?map2_length_min, ?length_map, ?yerr_length, ?var_length,
    ?repeat_length;
  lia.

Lemma big_sum_le (n : nat) (f : nat -> R) (c : R) :
  (forall k, (k < n)%nat -> f k <= c) -> big_sum n f <= INR n * c.
Proof.
  induction n as [|n IH]; intros H.
  - simpl; lra.
  - rewrite S_INR; cbn [big_sum].
    specialize (IH ltac:(intros; apply H; lia)).
    specialize (H n ltac:(lia)); lra.
Qed.

Lemma ln_5 : ln 5 = - ln 0.2.
Proof.
  replace 0.2 with (/ 5) by lra; rewrite ln_Rinv by lra; lra.
Qed.

Section EvaluatorBounds.

Variables x y : array.
Hypothesis Hxy : length y = length x.

Lemma fg_value_nth (m b : R) (k : nat) :
  (k < length x)%nat ->
  nth k (fg_value x y m b) 0
  = - (1 / 2) * ((m * nth k x 0 + b - nth k y 0) / 0.2) ^ 2 - ln 0.2.
Proof.
  intros Hk; unfold fg_value, lscal, rscal, power.
  repeat first [ rewrite (nth_map_lt _ _ _ 0) by data_len
               | rewrite (nth_map2_lt _ _ _ _ 0 0) by data_len ].
  rewrite yerr_nth by exact Hk; lra.
Qed.

Lemma bg_value_nth (M lnV : R) (k : nat) :
  (k < length x)%nat ->
  nth k (bg_value x y M lnV) 0
  = - (1 / 2) * ((M - nth k y 0) ^ 2 / (exp lnV + 0.2 ^ 2)
                 + ln (exp lnV + 0.2 ^ 2)).
Proof.
  intros Hk; unfold bg_value, lscal, power.
  repeat first [ rewrite (nth_map_lt _ _ _ 0) by data_len
               | rewrite (nth_map2_lt _ _ _ _ 0 0) by data_len ].
  rewrite var_nth, yerr_nth by exact Hk; lra.
Qed.

(** X3. For every vector of five components lnprob returns a value, never an
    exception: a finite log-probability when every component is strictly
    inside its bound, and minus infinity with the two zero vectors when one
    is not. *)
Theorem lnprob_never_raises (m b Q M lnV : R) :
  (strictly_inside [m; b; Q; M; lnV] /\
   exists t arg1 arg2,
     lnprob x y [m; b; Q; M; lnV] = Ok (Finite t, arg1, arg2)) \/
  (some_outside [m; b; Q; M; lnV] /\
   lnprob x y [m; b; Q; M; lnV] = Ok (NegInf, zeros_like y, zeros_like y)).
Proof.
  destruct (lnprior [m; b; Q; M; lnV]) as [r|] eqn:E.
  - left.
    assert (Hr : lnprior [m; b; Q; M; lnV] = Finite 0).
    { revert E; unfold lnprior; destruct (negb _); intros E;
        [discriminate | reflexivity]. }
    apply lnprior_accepts in Hr; split; [exact Hr|].
    eexists; eexists; eexists.
    apply (lnprob_accepted x y Hxy _ _ _ _ _ Hr).
  - right; split.
    + revert E; unfold lnprior.
      destruct (forallb _ (combine _ bounds)) eqn:F; simpl;
        [discriminate|]; intros _.
      apply forallb_rejects; exact F.
    + apply lnprob_rejected; exact E.
Qed.

Lemma exp_fg_le (m b : R) (k : nat) :
  (k < length x)%nat -> exp (nth k (fg_value x y m b) 0) <= 5.
Proof.
  intros Hk; rewrite fg_value_nth by exact Hk.
  replace 5 with (exp (ln 5)) by (apply exp_ln; lra).
  destruct (Rle_lt_or_eq_dec _ _ (pow2_ge_0
              ((m * nth k x 0 + b - nth k y 0) / 0.2))) as [Hlt|Heq].
  - left; apply exp_increasing; rewrite ln_5; lra.
  - right; f_equal; rewrite ln_5, <- Heq; lra.
Qed.

Lemma exp_bg_le (M lnV : R) (k : nat) :
  (k < length x)%nat -> exp (nth k (bg_value x y M lnV) 0) <= 5.
Proof.
  intros Hk; rewrite bg_value_nth by exact Hk.
  pose proof (exp_pos lnV) as Hv.
  set (v := exp lnV + 0.2 ^ 2).
  assert (Hvpos : 0.2 ^ 2 < v) by (unfold v; lra).
  assert (Hq : 0 <= (M - nth k y 0) ^ 2 / v).
  { apply Rmult_le_pos; [apply pow2_ge_0|].
    apply Rlt_le, Rinv_0_lt_compat; lra. }
  assert (Hln : ln (0.2 ^ 2) < ln v) by (apply ln_increasing; lra).
  replace (0.2 ^ 2) with (0.2 * 0.2) in Hln by lra.
  rewrite ln_mult in Hln by lra.
  replace 5 with (exp (ln 5)) by (apply exp_ln; lra).
  left; apply exp_increasing; rewrite ln_5; lra.
Qed.

(** X4. Inside the bounds the log-probability cannot exceed K * log 5: each
    point contributes at most -log(0.2), because the foreground density is
    largest on the line and the background variance is never below the
    measurement variance. *)
Theorem lnprob_upper_bound (m b Q M lnV : R) :
  strictly_inside [m; b; Q; M; lnV] ->
  exists t arg1 arg2,
    lnprob x y [m; b; Q; M; lnV] = Ok (Finite t, arg1, arg2) /\
    t <= INR (length x) * ln 5.
Proof.
  intros Hin; pose proof (inside_Q _ _ _ _ _ Hin) as HQ.
  pose proof (fg_value_length x y Hxy m b) as Lfg.
  pose proof (bg_value_length x y Hxy M lnV) as Lbg.
  eexists; eexists; eexists; split;
    [apply (lnprob_accepted x y Hxy _ _ _ _ _ Hin)|].
  rewrite Rplus_0_l, np_sum_big_sum, map2_length_min, !arg_length, Lfg, Lbg.
  rewrite Nat.min_id.
  apply big_sum_le; intros k Hk.
  rewrite (nth_map2_lt _ _ _ _ 0 0) by (rewrite arg_length; lia).
  rewrite !arg_nth by lia.
  rewrite logaddexp_direct, !exp_plus_ln by lra.
  pose proof (exp_fg_le m b k Hk) as Hf.
  pose proof (exp_bg_le M lnV k Hk) as Hg.
  pose proof (exp_pos (nth k (fg_value x y m b) 0)) as Pf.
  pose proof (exp_pos (nth k (bg_value x y M lnV) 0)) as Pg.
  set (pf := exp (nth k (fg_value x y m b) 0)) in *.
  set (pg := exp (nth k (bg_value x y M lnV) 0)) in *.
  assert (Hpos : 0 < Q * pf + (1 - Q) * pg) by nra.
  assert (Hle : Q * pf + (1 - Q) * pg <= 5) by nra.
  destruct Hle as [Hlt|Heq].
  - left; apply ln_increasing; assumption.
  - right; rewrite Heq; reflexivity.
Qed.

(** X5. Entry k of the foreground log-likelihood never exceeds -log sigma_k, and
    reaches it exactly when the line goes through the point:
    m * x_k + b = y_k. *)
Theorem lnlike_fg_maximum (m b Q M lnV : R) :
  exists v,
    lnlike_fg x y [m; b; Q; M; lnV] = Ok v /\
    forall k, (k < length x)%nat ->
      nth k v 0 <= - ln (nth k (yerr x) 0) /\
      (nth k v 0 = - ln (nth k (yerr x) 0)
       <-> m * nth k x 0 + b = nth k y 0).
Proof.
  exists (fg_value x y m b); split; [apply lnlike_fg_eval; exact Hxy|].
  intros k Hk; rewrite fg_value_nth, yerr_nth by exact Hk.
  set (r := m * nth k x 0 + b - nth k y 0).
  assert (Hsq : (r / 0.2) ^ 2 = 25 * (r * r))
    by (replace (r / 0.2) with (5 * r) by lra; ring).
  rewrite Hsq; split; [nra|].
  split; intros H.
  - assert (r = 0) by nra; unfold r in *; lra.
  - assert (r = 0) by (unfold r; lra); nra.
Qed.

(** X6. Entry k of the background log-likelihood never exceeds
    -1/2 * log var_k, and reaches it exactly when the outlier mean sits on
    the point: M = y_k. *)
Theorem lnlike_bg_maximum (m b Q M lnV : R) :
  exists v,
    lnlike_bg x y [m; b; Q; M; lnV] = Ok v /\
    forall k, (k < length x)%nat ->
      nth k v 0 <= - (1 / 2) * ln (nth k (var x lnV) 0) /\
      (nth k v 0 = - (1 / 2) * ln (nth k (var x lnV) 0)
       <-> M = nth k y 0).
Proof.
  exists (bg_value x y M lnV); split; [apply lnlike_bg_eval; exact Hxy|].
  intros k Hk; rewrite bg_value_nth, var_nth, yerr_nth by exact Hk.
  pose proof (exp_pos lnV) as Hv.
  set (v := exp lnV + 0.2 ^ 2).
  assert (Hvpos : 0 < v) by (unfold v; lra).
  set (d := M - nth k y 0).
  assert (Hi : 0 < / v) by (apply Rinv_0_lt_compat; exact Hvpos).
  assert (Hq : d ^ 2 / v = (d * d) * / v) by (unfold Rdiv; ring).
  rewrite Hq; split; [nra|].
  split; intros H.
  - assert (Hz : d * d * / v = 0) by lra.
    assert (d * d = 0).
    { apply Rmult_integral in Hz; destruct Hz; lra. }
    assert (d = 0) by nra; unfold d in *; lra.
  - assert (d = 0) by (unfold d; lra); subst d; nra.
Qed.

End EvaluatorBounds.

(** * Further properties of the summarising loop *)

Lemma big_sum_minus_const (n : nat) (f : nat -> R) (c : R) :
  big_sum n (fun k => c - f k) = INR n * c - big_sum n f.
Proof.
  induction n as [|n IH]; [simpl; lra|].
  rewrite S_INR; cbn [big_sum]; rewrite IH; lra.
Qed.

Lemma sample_term_swap (a b : array) (k : nat) :
  sample_term (b, a) k = 1 - sample_term (a, b) k.
Proof.
  unfold sample_term; cbn [fst snd]; rewrite !exp_minus_logaddexp.
  pose proof (exp_pos (nth k a 0)); pose proof (exp_pos (nth k b 0)).
  field; lra.
Qed.

Lemma blob_term_swap (bl : list (list (array * array))) (i j k : nat) :
  blob_term (swap_blobs bl) i j k = 1 - blob_term bl i j k.
Proof.
  unfold blob_term, swap_blobs.
  change (@nil (array * array))
    with (map (fun b : array * array => (snd b, fst b)) []) at 1.
  rewrite map_nth.
  change (@nil R, @nil R)
    with ((fun b : array * array => (snd b, fst b)) ([], [])) at 1.
  rewrite map_nth.
  destruct (nth j (nth i bl []) ([], [])) as [a b]; apply sample_term_swap.
Qed.

Lemma swap_blobs_shaped (K nw ns : nat) (bl : list (list (array * array))) :
  blobs_shaped K nw ns bl -> blobs_shaped K nw ns (swap_blobs bl).
Proof.
  intros [Hl Hrows]; split; [unfold swap_blobs; rewrite length_map; exact Hl|].
  unfold swap_blobs; rewrite Forall_map.
  eapply Forall_impl; [|exact Hrows]; intros row [Hrow Hent].
  rewrite length_map; split; [exact Hrow|].
  rewrite Forall_map; eapply Forall_impl; [|exact Hent].
  intros [a b] [Ha Hb]; simpl in *; split; assumption.
Qed.

(** X8. Exchanging the foreground and the background vector of every stored blob
    turns every membership probability p into 1 - p: the loop run on the
    exchanged blobs gives the probability of being an outlier. *)
Theorem post_prob_complement (x : array) (sampler : EnsembleSampler)
  (nw ns nd : nat) :
  shape (chain sampler) = (nw, ns, nd) ->
  blobs_shaped (length x) nw ns (blobs sampler) ->
  (0 < ns * nw)%nat ->
  exists v v',
    post_prob x sampler = Ok v /\
    post_prob x {| chain := chain sampler;
                   blobs := swap_blobs (blobs sampler) |} = Ok v' /\
    length v = length x /\ length v' = length x /\
    forall k, (k < length x)%nat -> nth k v' 0 = 1 - nth k v 0.
Proof.
  intros Hshape Hblobs Hn.
  destruct (post_prob_returns x sampler nw ns nd Hshape Hblobs Hn)
    as [v [E [L N]]].
  destruct (post_prob_returns x
              {| chain := chain sampler; blobs := swap_blobs (blobs sampler) |}
              nw ns nd Hshape (swap_blobs_shaped _ _ _ _ Hblobs) Hn)
    as [v' [E' [L' N']]].
  exists v, v'; repeat split; try assumption.
  intros k Hk; rewrite (N k Hk), (N' k Hk); cbn [blobs].
  rewrite (big_sum_ext ns _
             (fun i => INR nw * 1
                       - big_sum nw (fun j => blob_term (blobs sampler) i j k))).
  - rewrite big_sum_minus_const, mult_INR.
    assert (0 < INR ns) by (apply lt_0_INR; lia).
    assert (0 < INR nw) by (apply lt_0_INR; lia).
    field; lra.
  - intros i _; rewrite <- big_sum_minus_const.
    apply big_sum_ext; intros j _; apply blob_term_swap.
Qed.

Lemma foldM_skip {A S : Type} (body : A -> S -> res S) (l : list A) (s : S) :
  (forall a s', body a s' = Ok s') -> foldM body l s = Ok s.
Proof.
  intros H; induction l as [|a l IH]; simpl; [reflexivity|].
  rewrite H; exact IH.
Qed.

Lemma foldM_app {A S : Type} (body : A -> S -> res S) (l1 l2 : list A)
  (s : S) :
  foldM body (l1 ++ l2) s = (s' <- foldM body l1 s ;; foldM body l2 s').
Proof.
  revert s; induction l1 as [|a l1 IH]; intros s; simpl; [reflexivity|].
  destruct (body a s) as [s1|e]; simpl; [apply IH | reflexivity].
Qed.

(** X10. When the chain announces no sample at all (no step or no walker) and
    there is at least one observation, the loop body never runs and the final
    division is 0/0: the summariser stops on the floating-point error instead
    of returning probabilities. *)
Theorem post_prob_no_samples (x : array) (sampler : EnsembleSampler)
  (nw ns nd : nat) :
  shape (chain sampler) = (nw, ns, nd) ->
  (ns * nw = 0)%nat -> (0 < length x)%nat ->
  post_prob x sampler = Raise FloatingPointError.
Proof.
  intros Hshape Hn Hx; unfold post_prob, shape0, shape1.
  rewrite Hshape; cbn [fst snd].
  assert (Hloop :
    foldM (fun i st =>
             foldM (fun j st0 => post_prob_body sampler i j st0) (range nw) st)
          (range ns) (zeros (length x), 0.0)
    = Ok (zeros (length x), 0.0)).
  { destruct ns as [|ns]; [reflexivity|].
    assert (nw = 0%nat) by lia; subst nw.
    apply foldM_skip; intros; reflexivity. }
  rewrite Hloop; cbn [bind].
  destruct (length x) as [|n]; [lia|].
  unfold idivide, zeros; cbn [repeat mapM].
  unfold divide at 1; destruct (Req_dec_T 0.0 0) as [_|H]; [reflexivity|lra].
Qed.

(** X11. When the chain announces more steps than there are rows of blobs, the
    loop consumes the rows that exist and then stops with IndexError at the
    first missing one. *)
Theorem post_prob_missing_blobs (x : array) (sampler : EnsembleSampler)
  (nw ns nd : nat) :
  shape (chain sampler) = (nw, ns, nd) ->
  blobs_shaped (length x) nw (length (blobs sampler)) (blobs sampler) ->
  (length (blobs sampler) < ns)%nat -> (0 < nw)%nat ->
  post_prob x sampler = Raise IndexError.
Proof.
  intros Hshape Hblobs Hshort Hnw; unfold post_prob, shape0, shape1.
  rewrite Hshape; cbn [fst snd]; unfold range.
  set (L := length (blobs sampler)) in *.
  replace ns with (L + (ns - L))%nat by lia.
  rewrite seq_app, foldM_app.
  destruct (foldM_accumulate (length x)
              (fun i st =>
                 foldM (fun j st0 => post_prob_body sampler i j st0)
                       (seq 0 nw) st)
              (fun i k => big_sum nw
                            (fun j => blob_term (blobs sampler) i j k))
              (INR nw * 1) L 0%nat (zeros (length x)) 0.0)
    as [acc [E _]].
  - intros i acc' norm' Hi Hl.
    apply (foldM_accumulate (length x)
             (fun j st => post_prob_body sampler i j st)
             (fun j k => blob_term (blobs sampler) i j k)
             1 nw 0%nat acc' norm'); [|exact Hl].
    intros j acc2 norm2 Hj Hl2.
    apply (post_prob_body_adds x sampler nw L Hblobs); auto; lia.
  - unfold zeros; apply repeat_length.
  - rewrite E; cbn [bind].
    destruct (ns - L)%nat as [|d] eqn:Ed; [lia|].
    destruct nw as [|w]; [lia|].
    cbn [seq foldM]; unfold post_prob_body at 1.
    unfold getitem at 1.
    rewrite (proj2 (nth_error_None (blobs sampler) (0 + L)));
      [reflexivity | unfold L; lia].
Qed.

Section PosteriorAverage.

Variables x y : array.
Hypothesis Hxy : length y = length x.

Lemma exp_fg_gauss (m b : R) (k : nat) :
  (k < length x)%nat ->
  exp (nth k (fg_value x y m b) 0)
  = gauss (m * nth k x 0 + b - nth k y 0) (nth k (yerr x) 0 ^ 2).
Proof.
  intros Hk; rewrite (fg_value_nth x y Hxy) by exact Hk.
  rewrite yerr_nth by exact Hk; unfold gauss; f_equal.
  replace (0.2 ^ 2) with (0.2 * 0.2) by lra.
  rewrite ln_mult by lra.
  set (r := m * nth k x 0 + b - nth k y 0).
  replace (r / 0.2) with (5 * r) by lra.
  replace (r ^ 2 / (0.2 * 0.2)) with (25 * r ^ 2) by lra.
  generalize (ln 0.2); intros l; field.
Qed.

Lemma exp_bg_gauss (M lnV : R) (k : nat) :
  (k < length x)%nat ->
  exp (nth k (bg_value x y M lnV) 0)
  = gauss (M - nth k y 0) (exp lnV + nth k (yerr x) 0 ^ 2).
Proof.
  intros Hk; rewrite (bg_value_nth x y Hxy) by exact Hk.
  rewrite yerr_nth by exact Hk; reflexivity.
Qed.

Lemma accepted_blob_term (m b Q M lnV : R) (k : nat) :
  0 < Q < 1 -> (k < length x)%nat ->
  sample_term (rscal Rplus (fg_value x y m b) (ln Q),
               rscal Rplus (bg_value x y M lnV) (ln (1 - Q))) k
  = membership_prob x y m b Q M lnV k.
Proof.
  intros HQ Hk; unfold sample_term, membership_prob; cbn [fst snd].
  rewrite exp_minus_logaddexp.
  rewrite !arg_nth
    by (rewrite ?(fg_value_length x y Hxy), ?(bg_value_length x y Hxy); lia).
  rewrite !exp_plus_ln by lra.
  rewrite exp_fg_gauss, exp_bg_gauss by exact Hk; reflexivity.
Qed.

(** X9. When every stored position of the chain is strictly inside the bounds
    and every stored blob is the pair of vectors lnprob returned at that
    position, entry k of the result of the summarising loop is the average
    over the chain of the posterior membership probability
    Q p_fg / (Q p_fg + (1 - Q) p_bg) of point k, with p_fg and p_bg the two
    Gaussian densities at the stored parameters. *)
Theorem post_prob_posterior_average (sampler : EnsembleSampler)
  (nw ns : nat) :
  shape (chain sampler) = (nw, ns, ndim) ->
  length (blobs sampler) = ns ->
  (forall i, (i < ns)%nat -> length (nth i (blobs sampler) []) = nw) ->
  (0 < ns * nw)%nat ->
  (forall i j, (i < ns)%nat -> (j < nw)%nat ->
     strictly_inside (chain_at (chain sampler) j i) /\
     exists t,
       lnprob x y (chain_at (chain sampler) j i)
       = Ok (t, fst (nth j (nth i (blobs sampler) []) ([], [])),
                snd (nth j (nth i (blobs sampler) []) ([], [])))) ->
  exists v,
    post_prob x sampler = Ok v /\
    length v = length x /\
    forall k, (k < length x)%nat ->
      nth k v 0
      = 1 / INR (ns * nw)
        * big_sum ns (fun i => big_sum nw (fun j =>
            let c := chain sampler in
            membership_prob x y (item c j i 0) (item c j i 1) (item c j i 2)
              (item c j i 3) (item c j i 4) k)).
Proof.
  intros Hshape Hlen Hrows Hn Hstored.
  assert (Hblob : forall i j, (i < ns)%nat -> (j < nw)%nat ->
            let c := chain sampler in
            0 < item c j i 2 < 1 /\
            nth j (nth i (blobs sampler) []) ([], [])
            = (rscal Rplus (fg_value x y (item c j i 0) (item c j i 1))
                 (ln (item c j i 2)),
               rscal Rplus (bg_value x y (item c j i 3) (item c j i 4))
                 (ln (1 - item c j i 2)))).
  { intros i j Hi Hj c.
    destruct (Hstored i j Hi Hj) as [Hin [t E]].
    unfold chain_at in Hin, E; rewrite Hshape in Hin, E.
    cbn [snd ndim range seq map] in Hin, E; fold c in Hin, E.
    split; [exact (inside_Q _ _ _ _ _ Hin)|].
    rewrite (lnprob_accepted x y Hxy _ _ _ _ _ Hin) in E.
    injection E as _ E1 E2.
    destruct (nth j (nth i (blobs sampler) []) ([], [])) as [a1 a2].
    cbn [fst snd] in E1, E2; subst; reflexivity. }
  assert (Hshaped : blobs_shaped (length x) nw ns (blobs sampler)).
  { split; [exact Hlen|].
    apply Forall_forall; intros row Hrow.
    destruct (In_nth _ _ [] Hrow) as [i [Hi Ei]]; rewrite Hlen in Hi.
    split; [rewrite <- Ei; apply Hrows; exact Hi|].
    apply Forall_forall; intros bb Hbb.
    destruct (In_nth _ _ ([], []) Hbb) as [j [Hj Ej]].
    rewrite <- Ei, Hrows in Hj by exact Hi.
    destruct (Hblob i j Hi Hj) as [_ Eb].
    rewrite Ei, Ej in Eb; rewrite Eb; cbn [fst snd].
    rewrite !arg_length.
    rewrite (fg_value_length x y Hxy), (bg_value_length x y Hxy); auto. }
  destruct (post_prob_returns x sampler nw ns ndim Hshape Hshaped Hn)
    as [v [E [L N]]].
  exists v; split; [exact E|]; split; [exact L|].
  intros k Hk; rewrite (N k Hk).
  rewrite (big_sum_ext ns _
             (fun i => big_sum nw (fun j =>
                let c := chain sampler in
                membership_prob x y (item c j i 0) (item c j i 1)
                  (item c j i 2) (item c j i 3) (item c j i 4) k))).
  - unfold Rdiv; ring.
  - intros i Hi; apply big_sum_ext; intros j Hj.
    destruct (Hblob i j Hi Hj) as [HQ Eb].
    unfold blob_term; rewrite Eb.
    apply accepted_blob_term; assumption.
Qed.

End PosteriorAverage.

(** * The synthetic data *)

Lemma sorted_insert_length (v : R) (l : array) :
  length (sorted_insert v l) = S (length l).
Proof.
  induction l as [|u l IH]; simpl; [reflexivity|].
  destruct (Rle_dec v u); simpl; [reflexivity | rewrite IH; reflexivity].
Qed.

Lemma np_sort_length (a : array) : length (np_sort a) = length a.
Proof.
  induction a as [|v a IH]; simpl; [reflexivity|].
  rewrite sorted_insert_length, IH; reflexivity.
Qed.

Lemma sorted_insert_perm (v : R) (l : array) :
  Permutation (v :: l) (sorted_insert v l).
Proof.
  induction l as [|u l IH]; simpl; [apply Permutation_refl|].
  destruct (Rle_dec v u); [apply Permutation_refl|].
  eapply Permutation_trans; [apply perm_swap|].
  apply perm_skip; exact IH.
Qed.

Lemma np_sort_perm (a : array) : Permutation a (np_sort a).
Proof.
  induction a as [|v a IH]; simpl; [apply perm_nil|].
  eapply Permutation_trans; [apply perm_skip; exact IH|].
  apply sorted_insert_perm.
Qed.

Lemma sorted_insert_sorted (v : R) (l : array) :
  Sorted Rle l -> Sorted Rle (sorted_insert v l).
Proof.
  induction l as [|u l IH]; intros H; simpl.
  - repeat constructor.
  - destruct (Rle_dec v u) as [Hle|Hgt].
    + constructor; [exact H | constructor; exact Hle].
    + inversion H as [|? ? Hs Hhd]; subst.
      constructor; [apply IH; exact Hs|].
      destruct l as [|w l]; simpl.
      * constructor; lra.
      * destruct (Rle_dec v w); constructor; [lra|].
        inversion Hhd; assumption.
Qed.

Lemma np_sort_sorted (a : array) : Sorted Rle (np_sort a).
Proof.
  induction a as [|v a IH]; simpl; [constructor|].
  apply sorted_insert_sorted; exact IH.
Qed.

Lemma count_true_le (m : list bool) : (count_true m <= length m)%nat.
Proof. unfold count_true; apply filter_length_le. Qed.

Lemma mask_selection_length (a : array) (m : list bool) :
  length m = length a ->
  length (map fst (filter snd (combine a m))) = count_true m.
Proof.
  revert m; induction a as [|u a IH]; intros [|f m] H; simpl in *;
    try discriminate; [reflexivity|].
  destruct f; simpl; unfold count_true in *; simpl;
    rewrite IH by lia; reflexivity.
Qed.

Lemma mask_selection_filled (a : array) (m : list bool) (c : R) :
  length m = length a ->
  map fst (filter snd
             (combine (map2 (fun u (f : bool) => if f then c else u) a m) m))
  = repeat c (count_true m).
Proof.
  revert m; induction a as [|u a IH]; intros [|f m] H; simpl in *;
    try discriminate; [reflexivity|].
  destruct f; simpl; unfold count_true in *; simpl;
    rewrite IH by lia; reflexivity.
Qed.

Lemma mask_selection_constant (c : R) (n : nat) (m : list bool) :
  length m = n ->
  map fst (filter snd (combine (repeat c n) m)) = repeat c (count_true m).
Proof.
  revert m; induction n as [|n IH]; intros [|f m] H; simpl in *;
    try discriminate; [reflexivity|].
  destruct f; simpl; unfold count_true in *; simpl;
    rewrite IH by lia; reflexivity.
Qed.

Lemma scatter_length (a : array) (m : list bool) (v : array) :
  length (scatter a m v) = length a.
Proof.
  revert m v; induction a as [|u a IH]; intros [|f m] v; simpl; auto.
  destruct f; [destruct v|]; simpl; rewrite IH; reflexivity.
Qed.

(** Where the mask is false the array keeps its entry; where it is true it
    takes the next entry of [v], counted by the true flags before it. *)
Lemma scatter_nth (a : array) (m : list bool) (v : array) (k : nat) :
  length m = length a -> length v = count_true m -> (k < length a)%nat ->
  nth k (scatter a m v) 0
  = if nth k m false then nth (count_true (firstn k m)) v 0 else nth k a 0.
Proof.
  revert m v k; induction a as [|u a IH]; intros [|f m] v k Hm Hv Hk;
    simpl in *; try discriminate; try lia.
  unfold count_true in *; destruct f; simpl in *.
  - destruct v as [|w v]; [discriminate|].
    destruct k as [|k]; simpl; [reflexivity|].
    apply IH; simpl in *; lia.
  - destruct k as [|k]; simpl; [reflexivity|].
    apply IH; simpl in *; lia.
Qed.

Lemma yerr_constant (x : array) : yerr x = repeat (0.2 * 1) (length x).
Proof. unfold yerr, lscal, ones_like; apply map_repeat. Qed.

Lemma np_sqrt_nonneg (a : array) :
  Forall (fun v => 0 <= v) a -> np_sqrt a = Ok (map sqrt a).
Proof.
  intros H; apply mapM_ok.
  eapply Forall_impl; [|exact H]; intros v Hv; simpl.
  destruct (Rle_dec 0 v); [reflexivity | contradiction].
Qed.

Section Generator.

Variable G : RandomState.
Hypothesis HG : rng_contract G.

Variables (u z r z2 : array) (s1 s2 s3 s4 : rng G).
Hypothesis Hu : uniform G (-2) 2 15 (seed G 12) = (u, s1).
Hypothesis Hz : randn G 15 s1 = (z, s2).
Hypothesis Hr : rand G 15 s2 = (r, s3).
Hypothesis Hz2 :
  randn G (count_true (map (fun v => Rltb true_frac v) r)) s3 = (z2, s4).

Lemma make_data_eval :
  let x := np_sort u in
  let m := map (fun v => Rltb true_frac v) r in
  let y1 := map2 Rplus (rscal Rplus (lscal Rmult 1.0 x) 0.0)
                 (map2 Rmult (yerr x) z) in
  let new := map2 Rplus (repeat 0.0 (count_true m))
               (map2 Rmult
                  (map sqrt (lscal Rplus 1.0
                               (power (repeat (0.2 * 1) (count_true m)) 2)))
                  z2) in
  make_data G
  = Ok {| data_x := x; data_yerr := yerr x;
          data_y := scatter (map2 (fun v (f : bool) => if f then 0.0 else v)
                               y1 m) m new;
          data_m_bkg := m |}.
Proof.
  intros x m y1 new.
  assert (Lu : length u = 15%nat)
    by (rewrite <- (uniform_length G HG (-2) 2 15 (seed G 12)), Hu; reflexivity).
  assert (Lx : length x = 15%nat) by (unfold x; rewrite np_sort_length; exact Lu).
  assert (Lz : length z = 15%nat)
    by (rewrite <- (randn_length G HG 15 s1), Hz; reflexivity).
  assert (Lr : length r = 15%nat)
    by (rewrite <- (rand_length G HG 15 s2), Hr; reflexivity).
  assert (Lm : length m = 15%nat) by (unfold m; rewrite length_map; exact Lr).
  assert (Lz2 : length z2 = count_true m)
    by (rewrite <- (randn_length G HG (count_true m) s3); unfold m;
        rewrite Hz2; reflexivity).
  unfold make_data. rewrite Hu; cbv beta iota zeta.
  change (np_sort u) with x. rewrite Lx, Hz; cbv beta iota zeta.
  rewrite Hr; cbv beta iota zeta.
  rewrite Hz2; cbv beta iota zeta. change (map (fun v : R => Rltb true_frac v) r) with m.
  unfold getitem, true_params, true_outliers; cbn [nth_error bind].
  unfold np_multiply, np_add.
  rewrite broadcast_same by (rewrite yerr_length; lia); cbn [bind].
  rewrite broadcast_same
    by (unfold rscal, lscal; rewrite !length_map, map2_length_min, yerr_length;
        lia); cbn [bind].
  fold y1.
  assert (Ly1 : length y1 = 15%nat).
  { unfold y1, rscal, lscal.
    rewrite map2_length_min, !length_map, map2_length_min, yerr_length; lia. }
  unfold mask_fill; rewrite (proj2 (Nat.eqb_eq _ _)) by lia; cbn [bind].
  set (y2 := map2 (fun (u0 : R) (f : bool) => if f then 0.0 else u0) y1 m).
  assert (Ly2 : length y2 = 15%nat)
    by (unfold y2; rewrite map2_length_min; lia).
  unfold mask_get.
  rewrite (proj2 (Nat.eqb_eq (length m) (length y2))) by lia; cbn [bind].
  unfold y2 at 1; rewrite mask_selection_filled by lia.
  rewrite (proj2 (Nat.eqb_eq (length m) (length (yerr x))))
    by (rewrite yerr_length; lia); cbn [bind].
  rewrite yerr_constant at 1; rewrite mask_selection_constant by lia.
  rewrite np_sqrt_nonneg; cbn [bind].
  2:{ unfold lscal, power; rewrite Forall_map, Forall_map.
      apply Forall_forall; intros v _.
      pose proof (pow2_ge_0 v); lra. }
  rewrite broadcast_same
    by (unfold lscal, power; rewrite !length_map, repeat_length; lia).
  cbn [bind].
  unfold iadd; rewrite (proj2 (Nat.eqb_eq _ _)); cbn [bind].
  2:{ unfold lscal, power.
      rewrite map2_length_min, !length_map, !repeat_length; lia. }
  fold new.
  assert (Lnew : length new = count_true m).
  { unfold new, lscal, power.
    rewrite !map2_length_min, !length_map, !repeat_length; lia. }
  unfold mask_set.
  rewrite (proj2 (Nat.eqb_eq (length m) (length y2))) by lia; cbn [negb].
  rewrite (proj2 (Nat.eqb_eq _ _) Lnew); reflexivity.
Qed.

Lemma count_firstn_lt (m : list bool) (k : nat) :
  nth k m false = true -> (count_true (firstn k m) < count_true m)%nat.
Proof.
  revert k; induction m as [|f m IH]; intros [|k] H; simpl in *;
    try discriminate.
  - subst f; unfold count_true; simpl; lia.
  - specialize (IH k H); unfold count_true in *; destruct f; simpl; lia.
Qed.

(** X14. Point by point: a point whose uniform draw r_k is not above true_frac
    keeps the line, y_k = x_k + 0.2 z_k with z the first normal draw; a point
    whose draw is above it is flagged and its y is replaced by
    sqrt(1 + 0.2^2) times the next unused entry of the second normal draw,
    which no longer depends on x_k. *)
Theorem make_data_values :
  let m := map (fun v => Rltb true_frac v) r in
  exists d,
    make_data G = Ok d /\
    data_m_bkg d = m /\
    forall k, (k < 15)%nat ->
      (nth k m false = true <-> true_frac < nth k r 0) /\
      (nth k m false = false ->
       nth k (data_y d) 0 = nth k (data_x d) 0 + 0.2 * nth k z 0) /\
      (nth k m false = true ->
       nth k (data_y d) 0
       = sqrt (1 + 0.2 ^ 2) * nth (count_true (firstn k m)) z2 0).
Proof.
  intros m; eexists; split; [apply make_data_eval|].
  split; [reflexivity|]; cbn [data_y data_x].
  assert (Lu : length u = 15%nat)
    by (rewrite <- (uniform_length G HG (-2) 2 15 (seed G 12)), Hu; reflexivity).
  assert (Lx : length (np_sort u) = 15%nat)
    by (rewrite np_sort_length; exact Lu).
  assert (Lz : length z = 15%nat)
    by (rewrite <- (randn_length G HG 15 s1), Hz; reflexivity).
  assert (Lr : length r = 15%nat)
    by (rewrite <- (rand_length G HG 15 s2), Hr; reflexivity).
  assert (Lm : length m = 15%nat) by (unfold m; rewrite length_map; exact Lr).
  assert (Lz2 : length z2 = count_true m)
    by (rewrite <- (randn_length G HG (count_true m) s3); unfold m;
        rewrite Hz2; reflexivity).
  intros k Hk.
  assert (Hflag : nth k m false = Rltb true_frac (nth k r 0)).
  { unfold m; rewrite (nth_map_lt _ _ _ 0) by lia; reflexivity. }
  split; [rewrite Hflag; apply Rltb_true|].
  fold m.
  set (y1 := map2 Rplus (rscal Rplus (lscal Rmult 1.0 (np_sort u)) 0.0)
                  (map2 Rmult (yerr (np_sort u)) z)).
  assert (Ly1 : length y1 = 15%nat).
  { unfold y1, rscal, lscal.
    rewrite map2_length_min, !length_map, map2_length_min, yerr_length; lia. }
  rewrite scatter_nth.
  2:{ rewrite map2_length_min; lia. }
  2:{ unfold lscal, power.
      rewrite !map2_length_min, !length_map, !repeat_length; lia. }
  2:{ rewrite map2_length_min; lia. }
  split; intros Hf; rewrite Hf.
  - rewrite (nth_map2_lt _ _ _ _ 0 false) by lia; rewrite Hf.
    unfold y1, rscal, lscal.
    rewrite (nth_map2_lt _ _ _ _ 0 0)
      by (rewrite ?length_map, ?map2_length_min, ?yerr_length; lia).
    rewrite (nth_map_lt _ _ _ 0) by (rewrite length_map; lia).
    rewrite (nth_map_lt _ _ _ 0) by lia.
    rewrite (nth_map2_lt _ _ _ _ 0 0) by (rewrite ?yerr_length; lia).
    rewrite yerr_nth by lia; lra.
  - pose proof (count_firstn_lt m k Hf) as Hrank.
    set (q := count_true (firstn k m)) in *.
    unfold lscal, power.
    rewrite (nth_map2_lt _ _ _ _ 0 0)
      by (rewrite ?map2_length_min, ?length_map, ?repeat_length; lia).
    rewrite nth_repeat_lt by lia.
    rewrite (nth_map2_lt _ _ _ _ 0 0)
      by (rewrite ?length_map, ?repeat_length; lia).
    rewrite (nth_map_lt _ _ _ 0) by (rewrite ?length_map, ?repeat_length; lia).
    rewrite (nth_map_lt _ _ _ 0) by (rewrite ?length_map, ?repeat_length; lia).
    rewrite (nth_map_lt _ _ _ 0) by (rewrite ?repeat_length; lia).
    rewrite nth_repeat_lt by lia.
    replace (1.0 + (0.2 * 1) ^ 2) with (1 + 0.2 ^ 2) by lra; lra.
Qed.

End Generator.

(** X12. The generated arrays have one entry per point, fifteen of them; in
    particular y and yerr have the shape of x, so the likelihoods and lnprob
    never stop on a shape error on this data. *)
Theorem make_data_shapes (G : RandomState) :
  rng_contract G ->
  exists d,
    make_data G = Ok d /\
    length (data_x d) = 15%nat /\
    length (data_y d) = length (data_x d) /\
    data_yerr d = yerr (data_x d) /\
    length (data_m_bkg d) = length (data_x d).
Proof.
  intros HG.
  destruct (uniform G (-2) 2 15 (seed G 12)) as [u s1] eqn:Hu.
  destruct (randn G 15 s1) as [z s2] eqn:Hz.
  destruct (rand G 15 s2) as [r s3] eqn:Hr.
  destruct (randn G (count_true (map (fun v => Rltb true_frac v) r)) s3)
    as [z2 s4] eqn:Hz2.
  eexists; split; [apply (make_data_eval G HG u z r z2 s1 s2 s3 s4); eassumption|].
  cbn [data_x data_y data_yerr data_m_bkg].
  assert (Lu : length u = 15%nat)
    by (rewrite <- (uniform_length G HG (-2) 2 15 (seed G 12)), Hu; reflexivity).
  assert (Lr : length r = 15%nat)
    by (rewrite <- (rand_length G HG 15 s2), Hr; reflexivity).
  assert (Lz : length z = 15%nat)
    by (rewrite <- (randn_length G HG 15 s1), Hz; reflexivity).
  unfold rscal, lscal.
  rewrite scatter_length, ?map2_length_min, ?length_map, ?map2_length_min,
    ?length_map, ?yerr_length, ?np_sort_length.
  repeat split; try reflexivity; lia.
Qed.

(** X13. The abscissae come out in ascending order, are the uniform draws in
    another order, and stay in the interval [-2, 2) the draws come from. *)
Theorem make_data_x_sorted (G : RandomState) :
  rng_contract G ->
  exists d,
    make_data G = Ok d /\
    Sorted Rle (data_x d) /\
    Permutation (fst (uniform G (-2) 2 15 (seed G 12))) (data_x d) /\
    Forall (fun v => -2 <= v < 2) (data_x d).
Proof.
  intros HG.
  pose proof (uniform_range G HG (-2) 2 15 (seed G 12) ltac:(lra)) as Hrange.
  destruct (uniform G (-2) 2 15 (seed G 12)) as [u s1] eqn:Hu.
  destruct (randn G 15 s1) as [z s2] eqn:Hz.
  destruct (rand G 15 s2) as [r s3] eqn:Hr.
  destruct (randn G (count_true (map (fun v => Rltb true_frac v) r)) s3)
    as [z2 s4] eqn:Hz2.
  eexists; split; [apply (make_data_eval G HG u z r z2 s1 s2 s3 s4); eassumption|].
  cbn [data_x fst] in *.
  split; [apply np_sort_sorted|]; split; [apply np_sort_perm|].
  apply Forall_forall; intros v Hv.
  rewrite Forall_forall in Hrange; apply Hrange.
  eapply Permutation_in; [apply Permutation_sym, np_sort_perm | exact Hv].
Qed.

(** * The first positions of the walkers *)

Lemma ln_2_bounds : 0 < ln 2.0 < 1.
Proof.
  split.
  - rewrite <- ln_1; apply ln_increasing; lra.
  - pose proof (exp_ineq1 1 ltac:(lra)) as He.
    rewrite <- (ln_exp 1); apply ln_increasing; lra.
Qed.

Lemma initial_guess_value : initial_guess = Ok [1.0; 0.0; 0.7; 0.0; ln 2.0].
Proof. unfold initial_guess; rewrite log_pos by lra; reflexivity. Qed.

Lemma perturbed_guess_inside (z : array) :
  length z = ndim -> Forall (fun v => Rabs v < 30000) z ->
  exists w,
    np_add [1.0; 0.0; 0.7; 0.0; ln 2.0] (lscal Rmult 1e-5 z) = Ok w /\
    strictly_inside w.
Proof.
  intros Hl Hz.
  destruct z as [|z0 [|z1 [|z2 [|z3 [|z4 [|z5 z]]]]]]; try discriminate.
  eexists; split; [reflexivity|].
  repeat match goal with
         | H : Forall _ (_ :: _) |- _ => inversion H; clear H; subst
         end.
  repeat match goal with
         | H : Rabs _ < _ |- _ => apply Rabs_def2 in H
         end.
  pose proof ln_2_bounds.
  unfold strictly_inside, bounds; simpl.
  repeat constructor; simpl; lra.
Qed.

Section Walkers.

Variable G : RandomState.
Hypothesis HG : rng_contract G.
Hypothesis Hsmall :
  forall n s, Forall (fun v => Rabs v < 30000) (fst (randn G n s)).

Lemma draw_walkers_inside (ks : list nat) :
  forall s,
  exists ws s',
    draw_walkers G [1.0; 0.0; 0.7; 0.0; ln 2.0] ks s = Ok (ws, s') /\
    length ws = length ks /\
    Forall strictly_inside ws.
Proof.
  induction ks as [|k ks IH]; intros s.
  - exists [], s; repeat split; constructor.
  - cbn [draw_walkers].
    pose proof (randn_length G HG ndim s) as Hl.
    pose proof (Hsmall ndim s) as Hz.
    destruct (randn G ndim s) as [z s1]; cbn [fst] in Hl, Hz.
    destruct (perturbed_guess_inside z Hl Hz) as [w [Ew Hw]].
    destruct (IH s1) as [ws [s' [E [L F]]]].
    exists (w :: ws), s'; rewrite Ew; cbn [bind]; rewrite E; cbn [bind].
    repeat split; [simpl; rewrite L; reflexivity | constructor; assumption].
Qed.

(** X15. As long as every normal draw is below 30000 in absolute value, the 32
    first positions p0 + 1e-5 z are all strictly inside the bounds: the prior
    accepts each of them and, on data of one shape, lnprob is finite there,
    so the sampler does not start from a rejected state. *)
Theorem initial_walkers_inside (s : rng G) :
  exists ws s',
    initial_walkers G s = Ok (ws, s') /\
    length ws = nwalkers /\
    Forall (fun w => length w = ndim /\ strictly_inside w /\
                     lnprior w = Finite 0) ws /\
    forall x y, length y = length x ->
      Forall (fun w => exists t arg1 arg2,
                lnprob x y w = Ok (Finite t, arg1, arg2)) ws.
Proof.
  destruct (draw_walkers_inside (range nwalkers) s) as [ws [s' [E [L F]]]].
  exists ws, s'; unfold initial_walkers.
  rewrite initial_guess_value; cbn [bind].
  split; [exact E|].
  split; [rewrite L; unfold range; apply length_seq|].
  split.
  - eapply Forall_impl; [|exact F]; intros w Hw.
    split; [|split; [exact Hw | apply lnprior_inside; exact Hw]].
    unfold strictly_inside in Hw.
    rewrite (Forall2_length Hw); reflexivity.
  - intros x y Hxy.
    eapply Forall_impl; [|exact F]; intros w Hw.
    assert (Hl : length w = 5%nat)
      by (unfold strictly_inside in Hw; rewrite (Forall2_length Hw);
          reflexivity).
    destruct w as [|m [|b [|Q [|M [|lnV [|e w]]]]]]; try discriminate.
    eexists; eexists; eexists.
    apply (lnprob_accepted x y Hxy _ _ _ _ _ Hw).
Qed.

End Walkers.

(** * The fit that ignores the outliers *)

Lemma big_sum_scal (n : nat) (f : nat -> R) (c : R) :
  big_sum n (fun k => c * f k) = c * big_sum n f.
Proof.
  induction n as [|n IH]; simpl; [lra | rewrite IH; lra].
Qed.

Lemma big_sum_const (n : nat) (c : R) : big_sum n (fun _ => c) = INR n * c.
Proof.
  induction n as [|n IH]; [simpl; lra|].
  rewrite S_INR; cbn [big_sum]; rewrite IH; lra.
Qed.

Lemma big_sum_nonneg (n : nat) (f : nat -> R) :
  (forall k, (k < n)%nat -> 0 <= f k) -> 0 <= big_sum n f.
Proof.
  induction n as [|n IH]; intros H; simpl; [lra|].
  specialize (IH ltac:(intros; apply H; lia)).
  specialize (H n ltac:(lia)); lra.
Qed.

Lemma big_sum_zero_terms (n : nat) (f : nat -> R) :
  (forall k, (k < n)%nat -> 0 <= f k) -> big_sum n f = 0 ->
  forall k, (k < n)%nat -> f k = 0.
Proof.
  induction n as [|n IH]; intros Hpos Hsum k Hk; [lia|].
  cbn [big_sum] in Hsum.
  pose proof (big_sum_nonneg n f ltac:(intros; apply Hpos; lia)) as Hn.
  pose proof (Hpos n ltac:(lia)) as Hl.
  destruct (Nat.eq_dec k n) as [->|Hne]; [lra|].
  apply IH; [intros; apply Hpos; lia | lra | lia].
Qed.

(** The sum of squared residuals of a line, term by term. *)
Lemma big_sum_residuals (n : nat) (X Y : nat -> R) (m b : R) :
  big_sum n (fun k => (m * X k + b - Y k) ^ 2)
  = m * m * big_sum n (fun k => X k * X k)
    + 2 * m * b * big_sum n X
    + b * b * INR n
    - 2 * m * big_sum n (fun k => X k * Y k)
    - 2 * b * big_sum n Y
    + big_sum n (fun k => Y k * Y k).
Proof.
  induction n as [|n IH]; [simpl; lra|].
  rewrite S_INR; cbn [big_sum]; rewrite IH; ring.
Qed.

Lemma mapM_divide_rows (A : list (R * R)) (c : R) :
  c <> 0 ->
  mapM (fun '(row, d) =>
          q1 <- divide (fst row) d ;; q2 <- divide (snd row) d ;; Ok (q1, q2))
       (combine A (repeat c (length A)))
  = Ok (map (fun row => (fst row / c, snd row / c)) A).
Proof.
  intros Hc; induction A as [|row A IH]; [reflexivity|].
  cbn [length repeat combine mapM map].
  rewrite !divide_nonzero by exact Hc; cbn [bind].
  rewrite IH; reflexivity.
Qed.

Lemma map2_diag {A B C D : Type} (f : B -> C -> D) (g : A -> B) (h : A -> C)
  (l : list A) :
  map2 f (map g l) (map h l) = map (fun a => f (g a) (h a)) l.
Proof.
  induction l as [|a l IH]; simpl; [reflexivity | rewrite IH; reflexivity].
Qed.

Lemma np_sum_shifted_squares (v : R) (l : array) :
  np_sum (map (fun u => (u - v) * (u - v)) l)
  = np_sum (map (fun u => u * u) l) - 2 * v * np_sum l
    + INR (length l) * (v * v).
Proof.
  induction l as [|a l IH]; [simpl; lra|].
  cbn [map length]; rewrite S_INR.
  unfold np_sum in *; cbn [fold_right]; rewrite IH; ring.
Qed.

(** [spread l] is [n * sum of squares - square of the sum]: it is zero when
    all entries agree and positive otherwise. *)
Lemma spread_cons (v : R) (l : array) :
  INR (length (v :: l)) * np_sum (map (fun u => u * u) (v :: l))
  - np_sum (v :: l) * np_sum (v :: l)
  = (INR (length l) * np_sum (map (fun u => u * u) l) - np_sum l * np_sum l)
    + np_sum (map (fun u => (u - v) * (u - v)) l).
Proof.
  rewrite np_sum_shifted_squares.
  cbn [length map]; rewrite S_INR; unfold np_sum; cbn [fold_right]; ring.
Qed.

Lemma np_sum_squares_nonneg (v : R) (l : array) :
  0 <= np_sum (map (fun u => (u - v) * (u - v)) l).
Proof.
  induction l as [|a l IH]; [simpl; lra|].
  pose proof (Rle_0_sqr (a - v)) as Hs; unfold Rsqr in Hs.
  unfold np_sum in *; cbn [map fold_right]; lra.
Qed.

Lemma np_sum_squares_pos (v : R) (l : array) :
  (exists u, In u l /\ u <> v) ->
  0 < np_sum (map (fun u => (u - v) * (u - v)) l).
Proof.
  induction l as [|a l IH]; intros [u [Hu Hne]]; [contradiction|].
  pose proof (np_sum_squares_nonneg v l) as Hl.
  unfold np_sum in *; cbn [map fold_right].
  pose proof (Rle_0_sqr (a - v)) as Hs; unfold Rsqr in Hs.
  destruct Hu as [->|Hu].
  - pose proof (Rsqr_pos_lt (u - v) ltac:(lra)) as Hp; unfold Rsqr in Hp; lra.
  - specialize (IH (ex_intro _ u (conj Hu Hne))); lra.
Qed.

Lemma spread_nonneg (l : array) :
  0 <= INR (length l) * np_sum (map (fun u => u * u) l) - np_sum l * np_sum l.
Proof.
  induction l as [|v l IH]; [simpl; lra|].
  rewrite spread_cons; pose proof (np_sum_squares_nonneg v l); lra.
Qed.


Lemma spread_pos (l : array) :
  (exists u v, In u l /\ In v l /\ u <> v) ->
  0 < INR (length l) * np_sum (map (fun u => u * u) l) - np_sum l * np_sum l.
Proof.
  induction l as [|a l IH]; intros [u [v [Hu [Hv Hne]]]]; [contradiction|].
  rewrite spread_cons.
  pose proof (spread_nonneg l) as Hl.
  pose proof (np_sum_squares_nonneg a l) as Hs.
  destruct (Req_dec_T u a) as [Hua|Hua]; destruct (Req_dec_T v a) as [Hva|Hva].
  - congruence.
  - destruct Hv as [Hv|Hv]; [congruence|].
    pose proof (np_sum_squares_pos a l (ex_intro _ v (conj Hv Hva))); lra.
  - destruct Hu as [Hu|Hu]; [congruence|].
    pose proof (np_sum_squares_pos a l (ex_intro _ u (conj Hu Hua))); lra.
  - destruct Hu as [Hu|Hu]; [congruence|].
    pose proof (np_sum_squares_pos a l (ex_intro _ u (conj Hu Hua))); lra.
Qed.

Section Fit.

Variables x y : array.
Hypothesis Hxy : length y = length x.

Let K := length x.
Let Sxx := big_sum K (fun k => nth k x 0 * nth k x 0).
Let Sx := big_sum K (fun k => nth k x 0).
Let Sxy := big_sum K (fun k => nth k x 0 * nth k y 0).
Let Sy := big_sum K (fun k => nth k y 0).

Lemma fit_eval :
  fit x y
  = solve2 ((25 * Sxx, 25 * Sx), (25 * Sx, 25 * INR K)) (25 * Sxy, 25 * Sy).
Proof.
  unfold fit.
  assert (Hc : power (yerr x) 2 = repeat ((0.2 * 1) ^ 2) (length x)).
  { rewrite yerr_constant; unfold power; apply map_repeat. }
  rewrite Hc.
  assert (LA : length (vander2 x) = length x)
    by (unfold vander2; apply length_map).
  unfold divide_rows.
  rewrite (proj2 (Nat.eqb_eq _ _))
    by (rewrite repeat_length; exact LA); cbn [bind].
  rewrite <- LA at 1; rewrite mapM_divide_rows by lra; cbn [bind].
  unfold dot_T; rewrite (proj2 (Nat.eqb_eq _ _))
    by (rewrite length_map; reflexivity); cbn [bind].
  rewrite np_divide_nonzero; cbn [bind].
  2:{ rewrite repeat_length; exact Hxy. }
  2:{ apply Forall_forall; intros v Hv; apply repeat_spec in Hv; subst; lra. }
  unfold dot_T_vec; rewrite (proj2 (Nat.eqb_eq _ _)); cbn [bind].
  2:{ rewrite map2_length_min, repeat_length, LA; lia. }
  unfold vander2; rewrite !map_map; cbn [fst snd].
  rewrite !map2_diag.
  assert (Hq : (0.2 * 1) ^ 2 = / 25) by lra.
  rewrite Hq.
  assert (H11 : np_sum (map (fun a => a ^ 1 * (a ^ 1 / / 25)) x) = 25 * Sxx).
  { rewrite <- (big_sum_nth _ x 0); unfold Sxx; rewrite <- big_sum_scal.
    apply big_sum_ext; intros k _; field. }
  assert (H12 : np_sum (map (fun a => a ^ 1 * (a ^ 0 / / 25)) x) = 25 * Sx).
  { rewrite <- (big_sum_nth _ x 0); unfold Sx; rewrite <- big_sum_scal.
    apply big_sum_ext; intros k _; field. }
  assert (H21 : np_sum (map (fun a => a ^ 0 * (a ^ 1 / / 25)) x) = 25 * Sx).
  { rewrite <- (big_sum_nth _ x 0); unfold Sx; rewrite <- big_sum_scal.
    apply big_sum_ext; intros k _; field. }
  assert (H22 : np_sum (map (fun a => a ^ 0 * (a ^ 0 / / 25)) x)
                = 25 * INR K).
  { rewrite <- (big_sum_nth _ x 0).
    replace (INR K) with (big_sum K (fun _ => 1))
      by (rewrite big_sum_const; lra).
    rewrite <- big_sum_scal.
    apply big_sum_ext; intros k _; field. }
  assert (Hv : forall n : nat,
            np_sum (map2 Rmult (map (fun a => a ^ n) x)
                      (map2 Rdiv y (repeat (/ 25) (length x))))
            = 25 * big_sum K (fun k => nth k x 0 ^ n * nth k y 0)).
  { intros n; rewrite np_sum_big_sum, <- big_sum_scal.
    rewrite !map2_length_min, length_map, repeat_length, Hxy, !Nat.min_id.
    apply big_sum_ext; intros k Hk.
    rewrite (nth_map2_lt _ _ _ _ 0 0)
      by (rewrite ?length_map, ?map2_length_min, ?repeat_length; lia).
    rewrite (nth_map_lt _ _ _ 0) by lia.
    rewrite (nth_map2_lt _ _ _ _ 0 0) by (rewrite ?repeat_length; lia).
    rewrite nth_repeat_lt by lia; field. }
  rewrite H11, H12, H21, H22, !Hv.
  do 2 f_equal; f_equal; apply big_sum_ext; intros k _; ring.
Qed.
Let D := INR K * Sxx - Sx * Sx.

Lemma spread_of_x :
  D = INR (length x) * np_sum (map (fun u => u * u) x) - np_sum x * np_sum x.
Proof.
  unfold D, Sxx, Sx, K.
  rewrite (big_sum_nth (fun u => u * u) x 0), <- np_sum_big_sum; reflexivity.
Qed.


Lemma sum_fg_value (m b : R) :
  np_sum (fg_value x y m b)
  = - (1 / 2) * chi2 x y m b - INR K * ln 0.2.
Proof.
  rewrite np_sum_big_sum, (fg_value_length x y Hxy); unfold chi2; fold K.
  rewrite <- big_sum_scal, <- big_sum_const.
  assert (E : forall (n : nat) (f g : nat -> R),
            big_sum n f - big_sum n g = big_sum n (fun k => f k - g k)).
  { induction n as [|n IH]; intros f g; simpl; [lra|].
    rewrite <- IH; lra. }
  rewrite E; apply big_sum_ext; intros k Hk.
  rewrite (fg_value_nth x y Hxy) by exact Hk.
  rewrite yerr_nth by exact Hk; reflexivity.
Qed.

Lemma chi2_expanded (m b : R) :
  chi2 x y m b
  = 25 * big_sum K (fun k => (m * nth k x 0 + b - nth k y 0) ^ 2).
Proof.
  unfold chi2; fold K; rewrite <- big_sum_scal.
  apply big_sum_ext; intros k Hk; rewrite yerr_nth by exact Hk.
  replace ((m * nth k x 0 + b - nth k y 0) / 0.2)
    with (5 * (m * nth k x 0 + b - nth k y 0)) by lra.
  ring.
Qed.

(** X16. When two abscissae differ the fit returns the line that maximises the
    sum of the foreground log-likelihood over the points, and no other line
    reaches that maximum. *)
Theorem fit_maximum_likelihood (Q M lnV : R) :
  (exists u v, In u x /\ In v x /\ u <> v) ->
  exists mh bh,
    fit x y = Ok (mh, bh) /\
    forall m b,
    exists ll llh,
      lnlike_fg x y [m; b; Q; M; lnV] = Ok ll /\
      lnlike_fg x y [mh; bh; Q; M; lnV] = Ok llh /\
      np_sum ll <= np_sum llh /\
      (np_sum ll = np_sum llh -> m = mh /\ b = bh).
Proof.
  intros Hdist.
  pose proof (spread_pos x Hdist) as HD; rewrite <- spread_of_x in HD.
  assert (Hdet : 25 * Sxx * (25 * INR K) - 25 * Sx * (25 * Sx) = 625 * D)
    by (unfold D; ring).
  set (mh := (25 * Sxy * (25 * INR K) - 25 * Sx * (25 * Sy)) / (625 * D)).
  set (bh := (25 * Sxx * (25 * Sy) - 25 * Sx * (25 * Sxy)) / (625 * D)).
  exists mh, bh; split.
  { rewrite fit_eval; unfold solve2; rewrite Hdet.
    destruct (Req_dec_T (625 * D) 0) as [Hz|_]; [lra | reflexivity]. }
  assert (N1 : mh * Sxx + bh * Sx = Sxy).
  { unfold mh, bh, D in *; field; lra. }
  assert (N2 : mh * Sx + bh * INR K = Sy).
  { unfold mh, bh, D in *; field; lra. }
  intros m b.
  exists (fg_value x y m b), (fg_value x y mh bh).
  split; [apply lnlike_fg_eval; exact Hxy|].
  split; [apply lnlike_fg_eval; exact Hxy|].
  rewrite !sum_fg_value, !chi2_expanded.
  assert (Hgap :
    big_sum K (fun k => (m * nth k x 0 + b - nth k y 0) ^ 2)
    - big_sum K (fun k => (mh * nth k x 0 + bh - nth k y 0) ^ 2)
    = big_sum K (fun k => ((m - mh) * nth k x 0 + (b - bh) - 0) ^ 2)).
  { rewrite !big_sum_residuals; fold Sxx Sx Sxy Sy.
    rewrite (big_sum_ext K (fun k => nth k x 0 * 0) (fun _ => 0))
      by (intros; ring).
    rewrite (big_sum_ext K (fun _ => 0 * 0) (fun _ => 0)) by (intros; ring).
    rewrite !big_sum_const.
    rewrite <- N1, <- N2; ring. }
  assert (Hpos : 0 <= big_sum K
                        (fun k => ((m - mh) * nth k x 0 + (b - bh) - 0) ^ 2))
    by (apply big_sum_nonneg; intros; apply pow2_ge_0).
  split; [lra|].
  intros Heq.
  assert (Hzero : big_sum K
            (fun k => ((m - mh) * nth k x 0 + (b - bh) - 0) ^ 2) = 0) by lra.
  pose proof (big_sum_zero_terms K _
                ltac:(intros; apply pow2_ge_0) Hzero) as Hterms.
  destruct Hdist as [u [v [Hu [Hv Hne]]]].
  destruct (In_nth x u 0 Hu) as [i [Hi Ei]].
  destruct (In_nth x v 0 Hv) as [j [Hj Ej]].
  pose proof (Hterms i Hi) as Ti; pose proof (Hterms j Hj) as Tj.
  cbv beta in Ti, Tj; rewrite Ei in Ti; rewrite Ej in Tj.
  assert (Li : (m - mh) * u + (b - bh) = 0) by nra.
  assert (Lj : (m - mh) * v + (b - bh) = 0) by nra.
  assert (Hm : m - mh = 0).
  { assert ((m - mh) * (u - v) = 0) by lra.
    destruct (Rmult_integral _ _ H); lra. }
  rewrite Hm in Li; lra.
Qed.

End Fit.

(** * Data arrays of different shapes *)

(** X7. When x and y have different lengths and neither has a single entry, the
    arrays do not broadcast: both likelihoods raise ValueError for every
    vector of five components, and so does lnprob inside the bounds, while
    outside the bounds lnprob still returns minus infinity because it never
    reaches the likelihoods. *)
Theorem evaluator_shape_mismatch (x y : array) (m b Q M lnV : R) :
  length y <> length x -> length x <> 1%nat -> length y <> 1%nat ->
  lnlike_fg x y [m; b; Q; M; lnV] = Raise ValueError /\
  lnlike_bg x y [m; b; Q; M; lnV] = Raise ValueError /\
  (strictly_inside [m; b; Q; M; lnV] ->
   lnprob x y [m; b; Q; M; lnV] = Raise ValueError) /\
  (some_outside [m; b; Q; M; lnV] ->
   lnprob x y [m; b; Q; M; lnV] = Ok (NegInf, zeros_like y, zeros_like y)).
Proof.
  intros Hne Hx Hy.
  assert (Hfg : lnlike_fg x y [m; b; Q; M; lnV] = Raise ValueError).
  { unfold lnlike_fg, np_subtract, broadcast; cbn [unpack5 bind].
    unfold rscal, lscal; rewrite !length_map.
    rewrite (proj2 (Nat.eqb_neq _ _)) by lia.
    rewrite (proj2 (Nat.eqb_neq _ _) Hx), (proj2 (Nat.eqb_neq _ _) Hy).
    reflexivity. }
  split; [exact Hfg|]; split; [|split].
  - unfold lnlike_bg, np_divide, broadcast; cbn [unpack5 bind].
    unfold power, lscal; rewrite !length_map, var_length.
    rewrite (proj2 (Nat.eqb_neq _ _) Hne), (proj2 (Nat.eqb_neq _ _) Hy).
    rewrite (proj2 (Nat.eqb_neq _ _) Hx); reflexivity.
  - intros Hin; unfold lnprob; cbn [unpack5 bind].
    rewrite (lnprior_inside _ Hin); cbn [isfinite negb].
    rewrite Hfg; reflexivity.
  - intros Hout; apply lnprob_rejected, lnprior_outside; exact Hout.
Qed.

(** * Worked instances of the further properties *)

Lemma evaluator_wrong_length_witness :
  length [1; 0; 0.5] <> 5%nat /\
  lnlike_fg x0 y0 [1; 0; 0.5] = Raise ValueError /\
  lnlike_bg x0 y0 [1; 0; 0.5] = Raise ValueError /\
  lnprob x0 y0 [1; 0; 0.5] = Raise ValueError.
Proof.
  assert (H : length [1; 0; 0.5] <> 5%nat) by (simpl; lia).
  split; [exact H|].
  exact (evaluator_wrong_length x0 y0 [1; 0; 0.5] H).
Defined.

Lemma lnprob_never_raises_witness :
  length y0 = length x0 /\
  ((strictly_inside [1; 0; 1.5; 0; 0] /\
    exists t arg1 arg2,
      lnprob x0 y0 [1; 0; 1.5; 0; 0] = Ok (Finite t, arg1, arg2)) \/
   (some_outside [1; 0; 1.5; 0; 0] /\
    lnprob x0 y0 [1; 0; 1.5; 0; 0]
    = Ok (NegInf, zeros_like y0, zeros_like y0))).
Proof.
  split; [reflexivity|].
  exact (lnprob_never_raises x0 y0 eq_refl 1 0 1.5 0 0).
Defined.

Lemma lnprob_upper_bound_witness :
  length y0 = length x0 /\ strictly_inside theta0 /\
  exists t arg1 arg2,
    lnprob x0 y0 theta0 = Ok (Finite t, arg1, arg2) /\
    t <= INR 2 * ln 5.
Proof.
  split; [reflexivity|]; split; [inside_bounds|].
  apply (lnprob_upper_bound x0 y0 eq_refl 1 0 0.5 0 0); inside_bounds.
Defined.

Lemma lnlike_fg_maximum_witness :
  length y0 = length x0 /\
  exists v,
    lnlike_fg x0 y0 theta0 = Ok v /\
    nth 1 v 0 <= - ln (nth 1 (yerr x0) 0) /\
    (nth 1 v 0 = - ln (nth 1 (yerr x0) 0) <-> 1 * 1 + 0 = 2).
Proof.
  split; [reflexivity|].
  destruct (lnlike_fg_maximum x0 y0 eq_refl 1 0 0.5 0 0) as [v [E N]].
  exists v; split; [exact E|].
  apply (N 1%nat); simpl; lia.
Defined.

Lemma lnlike_bg_maximum_witness :
  length y0 = length x0 /\
  exists v,
    lnlike_bg x0 y0 theta0 = Ok v /\
    nth 1 v 0 <= - (1 / 2) * ln (nth 1 (var x0 0) 0) /\
    (nth 1 v 0 = - (1 / 2) * ln (nth 1 (var x0 0) 0) <-> 0 = 2).
Proof.
  split; [reflexivity|].
  destruct (lnlike_bg_maximum x0 y0 eq_refl 1 0 0.5 0 0) as [v [E N]].
  exists v; split; [exact E|].
  apply (N 1%nat); simpl; lia.
Defined.

Lemma evaluator_shape_mismatch_witness :
  length [0; 1; 2] <> length x0 /\ length x0 <> 1%nat /\
  length [0; 1; 2] <> 1%nat /\
  lnlike_fg x0 [0; 1; 2] theta0 = Raise ValueError /\
  lnlike_bg x0 [0; 1; 2] theta0 = Raise ValueError.
Proof.
  assert (H1 : length [0; 1; 2] <> length x0) by (simpl; lia).
  assert (H2 : length x0 <> 1%nat) by (simpl; lia).
  assert (H3 : length [0; 1; 2] <> 1%nat) by (simpl; lia).
  split; [exact H1|]; split; [exact H2|]; split; [exact H3|].
  destruct (evaluator_shape_mismatch x0 [0; 1; 2] 1 0 0.5 0 0 H1 H2 H3)
    as [Hf [Hb _]].
  split; [exact Hf | exact Hb].
Defined.

Lemma post_prob_complement_witness :
  shape (chain sampler0) = (2%nat, 1%nat, 5%nat) /\
  blobs_shaped (length x0) 2 1 (blobs sampler0) /\
  (0 < 1 * 2)%nat /\
  exists v v',
    post_prob x0 sampler0 = Ok v /\
    post_prob x0 {| chain := chain sampler0;
                    blobs := [[([0; -1], [-1; 0]); ([0; 0], [0; 0])]] |}
    = Ok v' /\
    nth 0 v' 0 = 1 - nth 0 v 0.
Proof.
  split; [reflexivity|]; split; [sampler0_shaped|]; split; [lia|].
  destruct (post_prob_complement x0 sampler0 2 1 5 eq_refl)
    as [v [v' [E [E' [_ [_ N]]]]]]; [sampler0_shaped | lia |].
  exists v, v'; split; [exact E|]; split; [exact E'|].
  apply (N 0%nat); simpl; lia.
Defined.

Lemma post_prob_no_samples_witness :
  (0 * 2 = 0)%nat /\ (0 < length x0)%nat /\
  post_prob x0
    {| chain := {| shape := (2%nat, 0%nat, 5%nat); item := fun _ _ _ => 0 |};
       blobs := [] |}
  = Raise FloatingPointError.
Proof.
  split; [reflexivity|]; split; [simpl; lia|].
  apply (post_prob_no_samples x0
           {| chain := {| shape := (2%nat, 0%nat, 5%nat);
                          item := fun _ _ _ => 0 |};
              blobs := [] |} 2 0 5 eq_refl); [reflexivity | simpl; lia].
Defined.

Lemma post_prob_missing_blobs_witness :
  (length (blobs sampler0) < 3)%nat /\
  post_prob x0 {| chain := {| shape := (2%nat, 3%nat, 5%nat);
                              item := fun _ _ _ => 0 |};
                  blobs := blobs sampler0 |}
  = Raise IndexError.
Proof.
  split; [simpl; lia|].
  apply (post_prob_missing_blobs x0
           {| chain := {| shape := (2%nat, 3%nat, 5%nat);
                          item := fun _ _ _ => 0 |};
              blobs := blobs sampler0 |} 2 3 5 eq_refl);
    [sampler0_shaped | simpl; lia | lia].
Defined.

Lemma post_prob_posterior_average_witness :
  length y0 = length x0 /\
  exists v,
    post_prob x0 sampler1 = Ok v /\
    length v = 2%nat /\
    nth 0 v 0 = 1 / INR 1 * (0 + (0 + membership_prob x0 y0 1 0 0.5 0 0 0)).
Proof.
  split; [reflexivity|].
  assert (Hin : strictly_inside [1; 0; 0.5; 0; 0]) by inside_bounds.
  destruct (post_prob_posterior_average x0 y0 eq_refl sampler1 1 1 eq_refl
              eq_refl) as [v [E [L N]]].
  - intros [|i] Hi; [reflexivity | lia].
  - lia.
  - intros [|i] [|j] Hi Hj; try lia.
    split; [exact Hin|].
    eexists; exact (lnprob_accepted x0 y0 eq_refl 1 0 0.5 0 0 Hin).
  - exists v; split; [exact E|]; split; [exact L|].
    apply (N 0%nat); simpl; lia.
Defined.

Lemma toy_rng_contract : rng_contract toy_rng.
Proof.
  constructor; simpl; intros.
  - apply repeat_length.
  - apply Forall_forall; intros v Hv; apply repeat_spec in Hv; subst; lra.
  - apply repeat_length.
  - rewrite length_map; apply length_seq.
Qed.

Lemma make_data_shapes_witness :
  rng_contract toy_rng /\
  exists d,
    make_data toy_rng = Ok d /\
    length (data_x d) = 15%nat /\
    length (data_y d) = length (data_x d).
Proof.
  split; [exact toy_rng_contract|].
  destruct (make_data_shapes toy_rng toy_rng_contract)
    as [d [E [Lx [Ly _]]]].
  exists d; repeat split; assumption.
Defined.

Lemma make_data_x_sorted_witness :
  rng_contract toy_rng /\
  exists d,
    make_data toy_rng = Ok d /\
    Sorted Rle (data_x d) /\
    Forall (fun v => -2 <= v < 2) (data_x d).
Proof.
  split; [exact toy_rng_contract|].
  destruct (make_data_x_sorted toy_rng toy_rng_contract)
    as [d [E [Hs [_ Hr]]]].
  exists d; repeat split; assumption.
Defined.

Lemma make_data_values_witness :
  rng_contract toy_rng /\
  exists d,
    make_data toy_rng = Ok d /\
    nth 0 (data_y d) 0 = nth 0 (data_x d) 0 + 0.2 * 1 /\
    nth 1 (data_y d) 0 = sqrt (1 + 0.2 ^ 2) * 1.
Proof.
  split; [exact toy_rng_contract|].
  destruct (make_data_values toy_rng toy_rng_contract
              (repeat (-2) 15) (repeat 1 15)
              (map (fun i => if Nat.even i then 0 else 0.9) (seq 0 15))
              (repeat 1 (count_true
                 (map (fun v => Rltb true_frac v)
                    (map (fun i => if Nat.even i then 0 else 0.9)
                       (seq 0 15)))))
              1%nat 2%nat 3%nat 4%nat eq_refl eq_refl eq_refl eq_refl)
    as [d [E [_ N]]].
  assert (H0 : Rltb true_frac 0 = false).
  { unfold Rltb, true_frac; destruct (Rlt_dec 0.8 0); [lra | reflexivity]. }
  assert (H1 : Rltb true_frac 0.9 = true)
    by (apply Rltb_true; unfold true_frac; lra).
  exists d; split; [exact E|]; split.
  - destruct (N 0%nat ltac:(lia)) as [_ [Hkeep _]].
    apply Hkeep; simpl; exact H0.
  - destruct (N 1%nat ltac:(lia)) as [_ [_ Hout]].
    simpl in Hout; rewrite H0, H1 in Hout; simpl in Hout.
    unfold count_true in Hout; simpl in Hout.
    apply Hout; reflexivity.
Defined.

Lemma initial_walkers_inside_witness :
  rng_contract toy_rng /\
  (forall n s, Forall (fun v => Rabs v < 30000) (fst (randn toy_rng n s))) /\
  exists ws s',
    initial_walkers toy_rng 0%nat = Ok (ws, s') /\
    length ws = 32%nat /\
    Forall strictly_inside ws.
Proof.
  assert (Hsmall : forall n s,
            Forall (fun v => Rabs v < 30000) (fst (randn toy_rng n s))).
  { intros n s; simpl; apply Forall_forall; intros v Hv.
    apply repeat_spec in Hv; subst; rewrite Rabs_R1; lra. }
  split; [exact toy_rng_contract|]; split; [exact Hsmall|].
  destruct (initial_walkers_inside toy_rng toy_rng_contract Hsmall 0%nat)
    as [ws [s' [E [L [F _]]]]].
  exists ws, s'; split; [exact E|]; split; [exact L|].
  eapply Forall_impl; [|exact F]; intros w [_ [Hw _]]; exact Hw.
Defined.


Lemma fit_maximum_likelihood_witness :
  length y0 = length x0 /\
  (exists u v, In u x0 /\ In v x0 /\ u <> v) /\
  exists mh bh,
    fit x0 y0 = Ok (mh, bh) /\
    exists ll llh,
      lnlike_fg x0 y0 theta0 = Ok ll /\
      lnlike_fg x0 y0 [mh; bh; 0.5; 0; 0] = Ok llh /\
      np_sum ll <= np_sum llh.
Proof.
  assert (H : exists u v, In u x0 /\ In v x0 /\ u <> v).
  { exists 0, 1; unfold x0; simpl; repeat split; auto; lra. }
  split; [reflexivity|]; split; [exact H|].
  destruct (fit_maximum_likelihood x0 y0 eq_refl 0.5 0 0 H)
    as [mh [bh [E N]]].
  exists mh, bh; split; [exact E|].
  destruct (N 1 0) as [ll [llh [E1 [E2 [Hle _]]]]].
  exists ll, llh; repeat split; assumption.
Defined.
